(** * InvokeAI multi-GPU model cache: a shallow embedding

    The development follows the three modules of
    [invokeai/backend/model_manager/load/model_cache]:
    - [model_cache_base.py]   : the record classes and [CacheStats];
    - [model_cache_default.py]: [ModelCache] (device reservation, [put],
      [get], [exists], [make_room], [model_to_device]);
    - [model_locker.py]       : [ModelLocker].

    Python objects that are shared by reference (cache records handed to
    lockers, model objects held by records) live on explicit heaps inside
    the cache state, and every method is a function from a state to an
    [outcome]: it returns, raises a Python exception, or never returns. *)

From Stdlib Require Import ZArith QArith.
From stdpp Require Import base option list strings gmap.

Close Scope Q_scope.
Open Scope Z_scope.

(** ** Outcomes of a method call *)

(** The Python exceptions that the three modules can raise. *)
Inductive exn : Type :=
  | IndexError          (* list index out of range, pop from empty list, cache miss *)
  | ValueError          (* list.remove(x): x not in list; semaphore over-release *)
  | KeyError            (* missing dictionary key *)
  | AttributeError      (* missing attribute *)
  | AssertionError      (* a failed assert *)
  | OutOfMemoryError    (* torch.cuda.OutOfMemoryError *)
  | OtherError (msg : string).

Global Instance exn_eq_dec : EqDecision exn.
Proof. solve_decision. Defined.

(** A call of external code gives a result or raises; calls in sequence stop
    at the first that raises. *)
Global Instance exn_bind : MBind (sum exn) := λ A B f m,
  match m with
  | inl e => inl e
  | inr a => f a
  end.

(** A call on state [S] producing an [A]: it returns a value and a new
    state, raises with the state reached at the raise, or blocks for ever. *)
Inductive outcome (S A : Type) : Type :=
  | Returns (a : A) (s : S)
  | Raises (e : exn) (s : S)
  | Hangs.

Arguments Returns {S A} a s.
Arguments Raises {S A} e s.
Arguments Hangs {S A}.

Definition bind {S A B} (m : outcome S A) (k : A → S → outcome S B) : outcome S B :=
  match m with
  | Returns a s => k a s
  | Raises e s => Raises e s
  | Hangs => Hangs
  end.

Notation "'let*' ( x , s ) := m 'in' k" := (bind m (fun x s => k))
  (at level 10, x name, s name, k at level 200).

(** ** Python lists and dictionaries *)

(** [list.remove(x)]: drop the first occurrence, [None] when [x] is absent
    (Python raises ValueError there). *)
Fixpoint list_remove_first (x : string) (l : list string) : option (list string) :=
  match l with
  | [] => None
  | y :: l' =>
      if decide (x = y) then Some l'
      else cons y <$> list_remove_first x l'
  end.

(** An insertion-ordered dictionary: [d[k] = v] overwrites in place when [k]
    is a key already and appends otherwise. *)
Fixpoint dict_set {V} (k : string) (v : V) (d : list (string * V)) : list (string * V) :=
  match d with
  | [] => [(k, v)]
  | (k', v') :: d' =>
      if decide (k = k') then (k, v) :: d' else (k', v') :: dict_set k v d'
  end.

Fixpoint dict_get {V} (k : string) (d : list (string * V)) : option V :=
  match d with
  | [] => None
  | (k', v') :: d' => if decide (k = k') then Some v' else dict_get k d'
  end.

(** ** threading.BoundedSemaphore *)

Record BoundedSemaphore : Type := {
  sem_value : Z;          (* permits available now *)
  sem_initial : Z;        (* the bound: the value it was created with *)
}.

(** [acquire(timeout=t)].  A free permit is taken at once.  With no permit
    and a finite timeout during which nobody releases, the call returns
    [False]; with [timeout=None] it waits for ever. *)
Definition acquire (timeout : option Z) (sem : BoundedSemaphore)
  : outcome BoundedSemaphore bool :=
  if decide (0 < sem_value sem) then
    Returns true {| sem_value := sem_value sem - 1; sem_initial := sem_initial sem |}
  else
    match timeout with
    | Some _ => Returns false sem
    | None => Hangs
    end.

(** [release()]: a bounded semaphore refuses to exceed its initial value. *)
Definition release (sem : BoundedSemaphore) : outcome BoundedSemaphore unit :=
  if decide (sem_initial sem ≤ sem_value sem) then Raises ValueError sem
  else Returns () {| sem_value := sem_value sem + 1; sem_initial := sem_initial sem |}.

(** ** model_cache_base.py *)

Definition torch_device := string.
Definition thread_id := Z.

(** What lives at the address of a model object: where its tensors are and
    what they hold. *)
Record pyobj : Type := {
  ob_device : torch_device;
  ob_dtype : string;
  ob_data : list (string * Z);
}.

(** A class descriptor ([model.__class__]).  The factory that builds an
    empty shell from a configuration and the methods [to] and
    [load_state_dict] of its instances are code of torch, diffusers and
    transformers, external collaborators: they are carried by the
    descriptor.  Each of them may raise; [to] and [load_state_dict] work on
    the object in place and give its new contents, whatever the class makes
    of the device, the dtype and the tensors it is handed. *)
Record py_class : Type := {
  cls_name : string;
  cls_has_from_config : bool;   (* isinstance(cls, ConfigMixin) or hasattr(cls, "from_config") *)
  cls_from_config : list (string * Z) → exn + pyobj;   (* cls.from_config(config) *)
  cls_init : list (string * Z) → exn + pyobj;          (* cls(config=config) *)
  cls_has_to : bool;                                   (* hasattr(working_model, 'to') *)
  cls_has_load_state_dict : bool;           (* hasattr(working_model, 'load_state_dict') *)
  cls_to : torch_device → string → pyobj → exn + pyobj;
                                            (* working_model.to(device=..., dtype=...) *)
  cls_load_state_dict : list (string * Z) → pyobj → exn + pyobj;
                                            (* working_model.load_state_dict(state_dict) *)
}.

(** A reference to a model object together with the facts of its class that
    the cache inspects. *)
Record AnyModel : Type := {
  addr : nat;                     (* address on the object heap *)
  is_nn_module : bool;            (* isinstance(model, torch.nn.Module) *)
  has_to : bool;                  (* hasattr(model, "to") *)
  nbytes : Z;                     (* calc_model_size_by_data(model) *)
  model_config : list (string * Z);   (* model.config *)
  model_class : py_class;             (* model.__class__ *)
}.

(** The two record classes differ in what they own. *)
Inductive record_body : Type :=
  | OwnsModel (model : AnyModel)
  | OwnsConfig (config : list (string * Z)) (state_dict : list (string * Z)) (cls : py_class).

(** Modelled from the spec: the field [active_locks], the lock counter that
    the spec puts in the header [{ key, size_bytes, active_locks,
    resident_device? }] of every record and that the dataclasses of
    model_cache_base.py do not declare.  No method of the three modules
    reads it or writes it: it is 0 in every record that [put] builds and
    stays 0.

    The rest is [CacheRecord = Union[ModelConfigCacheRecord, ModelCacheRecord]]
    as declared: both dataclasses have [key] and [size] and differ in what
    they own, and neither defines a method.  [loaded] is the attribute that
    [ModelLocker.lock] assigns after a successful move. *)
Record CacheRecord : Type := {
  key : string;
  size : Z;
  body : record_body;
  active_locks : Z;
  loaded : bool;
}.

Definition ModelCacheRecord (k : string) (model : AnyModel) (sz : Z) : CacheRecord :=
  {| key := k; size := sz; body := OwnsModel model; active_locks := 0; loaded := false |}.

Definition ModelConfigCacheRecord (k : string) (config state_dict : list (string * Z))
    (cls : py_class) (sz : Z) : CacheRecord :=
  {| key := k; size := sz; body := OwnsConfig config state_dict cls;
     active_locks := 0; loaded := false |}.

Definition record_set_loaded (b : bool) (r : CacheRecord) : CacheRecord :=
  {| key := key r; size := size r; body := body r;
     active_locks := active_locks r; loaded := b |}.

Record CacheStats : Type := {
  hits : Z;
  misses : Z;
  high_watermark : Z;
  in_cache : Z;
  cleared : Z;
  cache_size_stat : Z;                       (* the field [cache_size] *)
  loaded_model_sizes : list (string * Z);
}.

Definition CacheStats_new : CacheStats :=
  {| hits := 0; misses := 0; high_watermark := 0; in_cache := 0; cleared := 0;
     cache_size_stat := 0; loaded_model_sizes := [] |}.

(** ** model_cache_default.py: the cache object *)

Definition GIG : Z := 1073741824.
Definition MB : Z := 2 ^ 20.

(** The attributes of a [ModelCache], and the two heaps of the objects it
    shares by reference: [_cached_models] maps a key to the address of its
    record in [records], and a record of the first kind holds the address of
    its model in [objects].  [_max_cache_size] is a Python float counted in
    GiB; floats are rationals and the only arithmetic on it, a product with a
    power of two and comparisons with integers, is exact on them. *)
Record ModelCache : Type := {
  _precision : string;
  _max_cache_size : Q;
  _stats : option CacheStats;
  _cached_models : gmap string nat;
  _cache_stack : list string;
  _execution_devices : list (torch_device * thread_id);
  _free_execution_device : BoundedSemaphore;
  records : list CacheRecord;
  objects : list pyobj;
}.

Definition set_stats (st : option CacheStats) (c : ModelCache) : ModelCache :=
  {| _precision := _precision c; _max_cache_size := _max_cache_size c; _stats := st;
     _cached_models := _cached_models c; _cache_stack := _cache_stack c;
     _execution_devices := _execution_devices c;
     _free_execution_device := _free_execution_device c;
     records := records c; objects := objects c |}.

Definition set_cached_models (m : gmap string nat) (c : ModelCache) : ModelCache :=
  {| _precision := _precision c; _max_cache_size := _max_cache_size c; _stats := _stats c;
     _cached_models := m; _cache_stack := _cache_stack c;
     _execution_devices := _execution_devices c;
     _free_execution_device := _free_execution_device c;
     records := records c; objects := objects c |}.

Definition set_cache_stack (l : list string) (c : ModelCache) : ModelCache :=
  {| _precision := _precision c; _max_cache_size := _max_cache_size c; _stats := _stats c;
     _cached_models := _cached_models c; _cache_stack := l;
     _execution_devices := _execution_devices c;
     _free_execution_device := _free_execution_device c;
     records := records c; objects := objects c |}.

Definition set_execution_devices (d : list (torch_device * thread_id)) (c : ModelCache)
  : ModelCache :=
  {| _precision := _precision c; _max_cache_size := _max_cache_size c; _stats := _stats c;
     _cached_models := _cached_models c; _cache_stack := _cache_stack c;
     _execution_devices := d;
     _free_execution_device := _free_execution_device c;
     records := records c; objects := objects c |}.

Definition set_free_execution_device (sem : BoundedSemaphore) (c : ModelCache) : ModelCache :=
  {| _precision := _precision c; _max_cache_size := _max_cache_size c; _stats := _stats c;
     _cached_models := _cached_models c; _cache_stack := _cache_stack c;
     _execution_devices := _execution_devices c;
     _free_execution_device := sem;
     records := records c; objects := objects c |}.

Definition set_records (rs : list CacheRecord) (c : ModelCache) : ModelCache :=
  {| _precision := _precision c; _max_cache_size := _max_cache_size c; _stats := _stats c;
     _cached_models := _cached_models c; _cache_stack := _cache_stack c;
     _execution_devices := _execution_devices c;
     _free_execution_device := _free_execution_device c;
     records := rs; objects := objects c |}.

Definition set_objects (os : list pyobj) (c : ModelCache) : ModelCache :=
  {| _precision := _precision c; _max_cache_size := _max_cache_size c; _stats := _stats c;
     _cached_models := _cached_models c; _cache_stack := _cache_stack c;
     _execution_devices := _execution_devices c;
     _free_execution_device := _free_execution_device c;
     records := records c; objects := os |}.

(** [ModelCache.__init__], given what [TorchDevice.execution_devices()]
    enumerates: every device starts unowned (thread id 0) and the semaphore
    holds one permit per device. *)
Definition ModelCache_init (max_cache_size : Q) (precision : string)
    (devices : list torch_device) : ModelCache :=
  let table := foldl (fun d x => dict_set x 0 d) [] devices in
  {| _precision := precision; _max_cache_size := max_cache_size; _stats := None;
     _cached_models := ∅; _cache_stack := [];
     _execution_devices := table;
     _free_execution_device :=
       {| sem_value := Z.of_nat (length table); sem_initial := Z.of_nat (length table) |};
     records := []; objects := [] |}.

(** ** Device reservation *)

(** [[x for x, tid in self._execution_devices.items() if tid == who]] *)
Definition devices_of (who : thread_id) (table : list (torch_device * thread_id))
  : list torch_device :=
  (filter (fun p => p.2 = who) table).*1.

Definition get_execution_device (current_thread : thread_id) (c : ModelCache)
  : outcome ModelCache torch_device :=
  match devices_of current_thread (_execution_devices c) with
  | [] => Raises ValueError c
  | device :: _ => Returns device c
  end.

(** The part of [reserve_execution_device] that runs before the [yield]. *)
Definition reserve_enter (timeout : option Z) (current_thread : thread_id) (c : ModelCache)
  : outcome ModelCache torch_device :=
  match devices_of current_thread (_execution_devices c) with
  | device :: _ => Returns device c
  | [] =>
      match acquire timeout (_free_execution_device c) with
      | Hangs => Hangs
      | Raises e sem => Raises e (set_free_execution_device sem c)
      | Returns _ sem =>
          let c1 := set_free_execution_device sem c in
          match devices_of 0 (_execution_devices c1) with
          | [] => Raises IndexError c1                      (* free_device[0] *)
          | free0 :: _ =>
              Returns free0
                (set_execution_devices (dict_set free0 current_thread (_execution_devices c1)) c1)
          end
      end
  end.

(** The [finally] block of [reserve_execution_device]. *)
Definition reserve_exit (device : torch_device) (c : ModelCache) : outcome ModelCache unit :=
  let c1 := set_execution_devices (dict_set device 0 (_execution_devices c)) c in
  match release (_free_execution_device c1) with
  | Returns _ sem => Returns () (set_free_execution_device sem c1)
  | Raises e sem => Raises e (set_free_execution_device sem c1)
  | Hangs => Hangs
  end.

(** The context manager around a [with] body: the [finally] block runs on
    every exit of the body, and an exception of the body is raised again
    after it. *)
Definition reserve_execution_device {A} (timeout : option Z) (current_thread : thread_id)
    (with_body : torch_device → ModelCache → outcome ModelCache A) (c : ModelCache)
  : outcome ModelCache A :=
  let* (device, c1) := reserve_enter timeout current_thread c in
  match with_body device c1 with
  | Returns a c2 => let* (_, c3) := reserve_exit device c2 in Returns a c3
  | Raises e c2 => let* (_, c3) := reserve_exit device c2 in Raises e c3
  | Hangs => Hangs
  end.

(** ** Keys, membership and size *)

(** Modelled from the spec: [SubModelType], imported from
    [invokeai.backend.model_manager] and not declared in these modules.  The
    spec's submodel tag: an enumeration member carrying a string [value];
    a member that is present counts as true in [if submodel_type:]. *)
Record SubModelType : Type := { value : string }.

Definition _make_cache_key (model_key : string) (submodel_type : option SubModelType)
  : string :=
  match submodel_type with
  | Some t => model_key +:+ ":" +:+ value t
  | None => model_key
  end.

(** [self._cached_models[k]] followed by the attribute reads on the record. *)
Definition lookup_record (k : string) (c : ModelCache) : option CacheRecord :=
  rid ← _cached_models c !! k; records c !! rid.

Definition size_at (rs : list CacheRecord) (rid : nat) : Z :=
  default 0 (size <$> rs !! rid).

Definition cache_size (c : ModelCache) : Z :=
  foldr (fun kv total => total + size_at (records c) kv.2) 0
        (map_to_list (_cached_models c)).

Definition exists_ (k : string) (submodel_type : option SubModelType) (c : ModelCache)
  : bool :=
  let k := _make_cache_key k submodel_type in
  bool_decide (is_Some (_cached_models c !! k)).

(** ** Eviction *)

Definition _delete_cache_entry (cache_entry : CacheRecord) (c : ModelCache)
  : outcome ModelCache unit :=
  match list_remove_first (key cache_entry) (_cache_stack c) with
  | None => Raises ValueError c
  | Some stack =>
      let c1 := set_cache_stack stack c in
      match _cached_models c1 !! key cache_entry with
      | None => Raises KeyError c1
      | Some _ =>
          Returns () (set_cached_models (delete (key cache_entry) (_cached_models c1)) c1)
      end
  end.

(** [current_size + bytes_needed > maximum_size], an integer against a float. *)
Definition over_budget (current_size bytes_needed : Z) (maximum_size : Q) : bool :=
  negb (Qle_bool (inject_Z (current_size + bytes_needed)) maximum_size).

(** The [while] loop of [make_room]; it yields [models_cleared].  Every
    iteration pops one key, so the length of the stack bounds the number of
    iterations: [fuel] is only there for the recursion to be structural. *)
Fixpoint make_room_loop (fuel : nat) (bytes_needed : Z) (maximum_size : Q)
    (current_size models_cleared : Z) (c : ModelCache) : outcome ModelCache Z :=
  if over_budget current_size bytes_needed maximum_size then
    match fuel with
    | O => Hangs
    | S fuel' =>
        match _cache_stack c with
        | [] => Raises IndexError c                         (* pop from empty list *)
        | model_key :: stack =>
            let c1 := set_cache_stack stack c in
            match lookup_record model_key c1 with
            | None => Raises KeyError c1
            | Some cache_entry =>
                let* (_, c2) := _delete_cache_entry cache_entry c1 in
                make_room_loop fuel' bytes_needed maximum_size
                  (current_size - size cache_entry) (models_cleared + 1) c2
            end
        end
    end
  else Returns models_cleared c.

Definition set_cleared (n : Z) (st : CacheStats) : CacheStats :=
  {| hits := hits st; misses := misses st; high_watermark := high_watermark st;
     in_cache := in_cache st; cleared := n; cache_size_stat := cache_size_stat st;
     loaded_model_sizes := loaded_model_sizes st |}.

Definition make_room (sz : Z) (c : ModelCache) : outcome ModelCache unit :=
  let bytes_needed := sz in
  let maximum_size := (_max_cache_size c * inject_Z GIG)%Q in
  let current_size := cache_size c in
  let* (models_cleared, c1) :=
    make_room_loop (S (length (_cache_stack c))) bytes_needed maximum_size current_size 0 c in
  if decide (0 < models_cleared) then
    Returns () (set_stats (set_cleared models_cleared <$> _stats c1) c1)
  else Returns () c1.

(** ** put, get *)

(** [model.state_dict()] *)
Definition state_dict_of (model : AnyModel) (c : ModelCache) : list (string * Z) :=
  default [] (ob_data <$> objects c !! addr model).

Definition put (k : string) (model : AnyModel) (submodel_type : option SubModelType)
    (c : ModelCache) : outcome ModelCache unit :=
  let k := _make_cache_key k submodel_type in
  if decide (is_Some (_cached_models c !! k)) then Returns () c
  else
    let sz := nbytes model in
    let* (_, c1) := make_room sz c in
    let cache_record :=
      if is_nn_module model then
        ModelConfigCacheRecord k (model_config model) (state_dict_of model c1)
          (model_class model) sz
      else ModelCacheRecord k model sz in
    let rid := length (records c1) in
    let c2 := set_records (records c1 ++ [cache_record]) c1 in
    let c3 := set_cached_models (<[k := rid]> (_cached_models c2)) c2 in
    Returns () (set_cache_stack (_cache_stack c3 ++ [k]) c3).

(** A [ModelLocker] refers to its cache entry: the address of the record. *)
Record ModelLocker : Type := { _cache_entry : nat }.

Definition add_hit (st : CacheStats) : CacheStats :=
  {| hits := hits st + 1; misses := misses st; high_watermark := high_watermark st;
     in_cache := in_cache st; cleared := cleared st; cache_size_stat := cache_size_stat st;
     loaded_model_sizes := loaded_model_sizes st |}.

Definition add_miss (st : CacheStats) : CacheStats :=
  {| hits := hits st; misses := misses st + 1; high_watermark := high_watermark st;
     in_cache := in_cache st; cleared := cleared st; cache_size_stat := cache_size_stat st;
     loaded_model_sizes := loaded_model_sizes st |}.

(** [int(x)] on a float: truncation towards zero. *)
Definition int_of (x : Q) : Z := Z.quot (Qnum x) (Zpos (Qden x)).

(** The block under "more stats" in [get]. *)
Definition more_stats (stats_name : option string) (k : string) (cache_entry : CacheRecord)
    (c : ModelCache) (st : CacheStats) : CacheStats :=
  let stats_name :=
    match stats_name with
    | Some n => if decide (n = "") then k else n
    | None => k
    end in
  {| hits := hits st; misses := misses st;
     high_watermark := Z.max (high_watermark st) (cache_size c);
     in_cache := Z.of_nat (base.size (_cached_models c));
     cleared := cleared st;
     cache_size_stat := int_of (_max_cache_size c * inject_Z GIG)%Q;
     loaded_model_sizes :=
       dict_set stats_name
         (Z.max (default 0 (dict_get stats_name (loaded_model_sizes st))) (size cache_entry))
         (loaded_model_sizes st) |}.

Definition get (k : string) (submodel_type : option SubModelType)
    (stats_name : option string) (c : ModelCache) : outcome ModelCache ModelLocker :=
  let k := _make_cache_key k submodel_type in
  match _cached_models c !! k with
  | None => Raises IndexError (set_stats (add_miss <$> _stats c) c)
  | Some rid =>
      let c1 := set_stats (add_hit <$> _stats c) c in
      match records c1 !! rid with
      | None => Raises KeyError c1
      | Some cache_entry =>
          let c2 := set_stats (more_stats stats_name k cache_entry c1 <$> _stats c1) c1 in
          (* with suppress(Exception): self._cache_stack.remove(key) *)
          let stack := default (_cache_stack c2) (list_remove_first k (_cache_stack c2)) in
          Returns {| _cache_entry := rid |} (set_cache_stack (stack ++ [k]) c2)
      end
  end.

(** ** Moving a model to a device *)

(** [copy.deepcopy(model)]: a new object with the contents of the old one. *)
Definition deepcopy (model : AnyModel) (os : list pyobj) : option (AnyModel * list pyobj) :=
  o ← os !! addr model;
  Some ({| addr := length os; is_nn_module := is_nn_module model; has_to := has_to model;
           nbytes := nbytes model; model_config := model_config model;
           model_class := model_class model |},
        os ++ [o]).

(** [model.to(device)] moves the object in place. *)
Definition to_device (device : torch_device) (o : pyobj) : pyobj :=
  {| ob_device := device; ob_dtype := ob_dtype o; ob_data := ob_data o |}.

(** [assert b] *)
Definition assert_ (b : bool) : exn + unit :=
  if b then inr () else inl AssertionError.

(** [model_to_device] reads the cache and writes nothing but model objects:
    its outcome carries the object heap.  For a record of the second kind the
    working model is built, moved and filled by its own class; an exception
    of any of these steps is raised again, and the object under construction
    is then garbage. *)
Definition model_to_device (cache_entry : CacheRecord) (target_device : torch_device)
    (c : ModelCache) : outcome (list pyobj) AnyModel :=
  match body cache_entry with
  | OwnsModel model =>
      if has_to model then
        match deepcopy model (objects c) with
        | None => Raises AttributeError (objects c)
        | Some (model_in_gpu, os) =>
            Returns model_in_gpu (alter (to_device target_device) (addr model_in_gpu) os)
        end
      else Returns model (objects c)          (* what happens in CPU stays in CPU *)
  | OwnsConfig config state_dict cls =>
      (* try: ... except Exception as e: raise e *)
      let working_model : exn + pyobj :=
        shell ← (if cls_has_from_config cls
                 then cls_from_config cls config          (* diffusers style *)
                 else cls_init cls config);               (* transformers style (sigh) *)
        _ ← assert_ (cls_has_to cls);
        _ ← assert_ (cls_has_load_state_dict cls);
        moved ← cls_to cls target_device (_precision c) shell;
        cls_load_state_dict cls state_dict moved in
      match working_model with
      | inl e => Raises e (objects c)
      | inr o =>
          Returns {| addr := length (objects c); is_nn_module := true; has_to := true;
                     nbytes := size cache_entry; model_config := config;
                     model_class := cls |}
                  (objects c ++ [o])
      end
  end.

(** ** model_locker.py *)

(** A call of a method that the class of the receiver does not define: the
    attribute lookup raises AttributeError before anything is called.  This
    is what Python does at the four calls of [ModelLocker] to methods that no
    class of the three modules defines: [lock] and [unlock] on a cache
    record, whose dataclasses declare fields only, and
    [move_model_to_device] and [offload_unlocked_models] on the cache, which
    neither [ModelCacheBase] nor [ModelCache] has. *)
Definition undefined_method {A} (c : ModelCache) : outcome ModelCache A :=
  Raises AttributeError c.

Definition alter_record (f : CacheRecord → CacheRecord) (rid : nat) (c : ModelCache)
  : ModelCache :=
  set_records (alter f rid (records c)) c.

(** [ModelLocker.model]: only a record of the first kind has the attribute. *)
Definition locker_model (self : ModelLocker) (c : ModelCache) : outcome ModelCache AnyModel :=
  match body <$> records c !! _cache_entry self with
  | Some (OwnsModel model) => Returns model c
  | _ => Raises AttributeError c
  end.

(** The body of the [try] in [ModelLocker.lock]. *)
Definition lock_attempt (self : ModelLocker) (current_thread : thread_id) (c : ModelCache)
  : outcome ModelCache unit :=
  let* (device, c) := get_execution_device current_thread c in
  (* self._cache.move_model_to_device(self._cache_entry, device) *)
  let* (_, c) := undefined_method (A := AnyModel) c in
  (* self._cache_entry.loaded = True; print_cuda_stats() only logs *)
  Returns () (alter_record (record_set_loaded true) (_cache_entry self) c).

(** [ModelLocker.lock].  Both [except] clauses call [unlock()] on the record
    before they raise again; an exception of that call replaces the one in
    flight. *)
Definition lock (self : ModelLocker) (current_thread : thread_id) (c : ModelCache)
  : outcome ModelCache AnyModel :=
  let* (_, c) := undefined_method (A := unit) c in          (* self._cache_entry.lock() *)
  match lock_attempt self current_thread c with
  | Raises e c =>
      let* (_, c) := undefined_method (A := unit) c in      (* self._cache_entry.unlock() *)
      Raises e c                                            (* raise *)
  | Returns _ c => locker_model self c                      (* return self.model *)
  | Hangs => Hangs
  end.

(** [ModelLocker.unlock]; [print_cuda_stats] only logs. *)
Definition unlock (self : ModelLocker) (c : ModelCache) : outcome ModelCache unit :=
  let* (_, c) := undefined_method (A := unit) c in          (* self._cache_entry.unlock() *)
  let* (_, c) := undefined_method (A := unit) c in   (* self._cache.offload_unlocked_models() *)
  Returns () c.

(** ** A concrete cache for the scenarios *)

Definition plain_class : py_class :=
  {| cls_name := "RawModel"; cls_has_from_config := false;
     cls_from_config := fun _ => inl AttributeError;
     cls_init := fun _ => inl AttributeError;
     cls_has_to := true; cls_has_load_state_dict := false;
     cls_to := fun device _ o => inr (to_device device o);
     cls_load_state_dict := fun _ _ => inl AttributeError |}.

(** A model that is not a [torch.nn.Module], of [n] bytes, at address [a]. *)
Definition raw_model (a : nat) (n : Z) : AnyModel :=
  {| addr := a; is_nn_module := false; has_to := true; nbytes := n;
     model_config := []; model_class := plain_class |}.

Definition on_cpu (data : list (string * Z)) : pyobj :=
  {| ob_device := "cpu"; ob_dtype := "float32"; ob_data := data |}.

(** A budget of 100 bytes: [max_cache_size] is counted in GiB. *)
Definition budget_100 : Q := 100 # 1073741824.

(** A fresh cache with two devices, a stats block attached, and three model
    objects of the callers on the heap. *)
Definition cache0 : ModelCache :=
  set_objects [on_cpu [("w", 1)]; on_cpu [("w", 2)]; on_cpu [("w", 3)]]
    (set_stats (Some CacheStats_new)
       (ModelCache_init budget_100 "float16" ["cuda:0"; "cuda:1"])).

Definition model_A := raw_model 0 40.
Definition model_B := raw_model 1 40.
Definition model_C := raw_model 2 40.

(** The state a call leaves behind, when it returns or raises. *)
Definition state_of {S A} (dflt : S) (o : outcome S A) : S :=
  match o with
  | Returns _ s | Raises _ s => s
  | Hangs => dflt
  end.

Definition cache_A : ModelCache := state_of cache0 (put "A" model_A None cache0).
Definition cache_AB : ModelCache := state_of cache0 (put "B" model_B None cache_A).

(** Threads 1 and 2 each hold a device. *)
Definition cache_one_reserved : ModelCache := state_of cache0 (reserve_enter None 1 cache0).
Definition cache_two_reserved : ModelCache :=
  state_of cache0 (reserve_enter None 2 cache_one_reserved).

(** Thread 1 has left its [with] block. *)
Definition cache_one_released : ModelCache :=
  state_of cache0 (reserve_exit "cuda:0" cache_two_reserved).

(** A [torch.nn.Module] whose class cannot be rebuilt on the device. *)
Definition oom_class : py_class :=
  {| cls_name := "UNet2DConditionModel"; cls_has_from_config := true;
     cls_from_config := fun _ => inl OutOfMemoryError;
     cls_init := fun _ => inl OutOfMemoryError;
     cls_has_to := true; cls_has_load_state_dict := true;
     cls_to := fun _ _ _ => inl OutOfMemoryError;
     cls_load_state_dict := fun _ _ => inl OutOfMemoryError |}.

Definition module_M : AnyModel :=
  {| addr := 0; is_nn_module := true; has_to := true; nbytes := 40;
     model_config := [("in_channels", 4)]; model_class := oom_class |}.

Definition cache_M : ModelCache :=
  state_of cache0 (put "M" module_M None (state_of cache0 (reserve_enter None 1 cache0))).

(** ** The state of an outcome *)

Definition map_state {S A} (f : S → S) (o : outcome S A) : outcome S A :=
  match o with
  | Returns a s => Returns a (f s)
  | Raises e s => Raises e (f s)
  | Hangs => Hangs
  end.

(** ** More of the lock handle *)

(** [ModelLocker.get_state_dict]: [self._cache_entry.state_dict], an attribute
    that only a record of the second kind has. *)
Definition get_state_dict (self : ModelLocker) (c : ModelCache)
  : outcome ModelCache (list (string * Z)) :=
  match body <$> records c !! _cache_entry self with
  | Some (OwnsConfig _ state_dict _) => Returns state_dict c
  | _ => Raises AttributeError c
  end.

(** ** Well-formed caches *)

(** Every address in [_cached_models] holds a record, and that record carries
    the key it is stored under. *)
Definition store_wf (c : ModelCache) : Prop :=
  ∀ k rid, _cached_models c !! k = Some rid →
    ∃ r, records c !! rid = Some r ∧ key r = k.

(** The recency list repeats no key and lists stored keys only. *)
Definition stack_wf (c : ModelCache) : Prop :=
  NoDup (_cache_stack c)
  ∧ ∀ k, k ∈ _cache_stack c → is_Some (_cached_models c !! k).

Definition cache_wf (c : ModelCache) : Prop := store_wf c ∧ stack_wf c.

(** The device table is a dictionary, one entry per device; the semaphore is
    within its bounds, its bound is at least the number of devices, and every
    unowned device is covered by a permit. *)
Definition devices_wf (c : ModelCache) : Prop :=
  NoDup (_execution_devices c).*1
  ∧ 0 ≤ sem_value (_free_execution_device c) ≤ sem_initial (_free_execution_device c)
  ∧ Z.of_nat (length (_execution_devices c)) ≤ sem_initial (_free_execution_device c)
  ∧ Z.of_nat (length (devices_of 0 (_execution_devices c)))
    ≤ sem_value (_free_execution_device c).

(** The record that [put] builds for a model, and the cache once it is
    stored: the record is allocated, entered under its key and its key is
    appended to the recency list. *)
Definition record_for (k : string) (model : AnyModel) (c : ModelCache) : CacheRecord :=
  if is_nn_module model then
    ModelConfigCacheRecord k (model_config model) (state_dict_of model c)
      (model_class model) (nbytes model)
  else ModelCacheRecord k model (nbytes model).

Definition stored (k : string) (cache_record : CacheRecord) (c : ModelCache) : ModelCache :=
  set_cache_stack (_cache_stack c ++ [k])
    (set_cached_models (<[k := length (records c)]> (_cached_models c))
       (set_records (records c ++ [cache_record]) c)).

(** The cache holds no more than its budget. *)
Definition within_budget (c : ModelCache) : Prop :=
  (inject_Z (cache_size c) <= _max_cache_size c * inject_Z GIG)%Q.

(** ** Sequences of calls *)

Inductive cache_call : Type :=
  | CallPut (k : string) (model : AnyModel) (submodel_type : option SubModelType)
  | CallGet (k : string) (submodel_type : option SubModelType) (stats_name : option string)
  | CallReserve (timeout : option Z) (current_thread : thread_id)
  | CallRelease (device : torch_device).

(** The cache after one call, whether the call returned or raised; a call
    that blocks leaves it as it is. *)
Definition after_call (call : cache_call) (c : ModelCache) : ModelCache :=
  match call with
  | CallPut k model submodel_type => state_of c (put k model submodel_type c)
  | CallGet k submodel_type stats_name => state_of c (get k submodel_type stats_name c)
  | CallReserve timeout current_thread => state_of c (reserve_enter timeout current_thread c)
  | CallRelease device => state_of c (reserve_exit device c)
  end.

Definition after_calls (calls : list cache_call) (c : ModelCache) : ModelCache :=
  foldl (fun c call => after_call call c) c calls.

(** A call made by a real thread (thread identifiers are not 0) on a device
    of the table. *)
Definition call_ok (devices : list torch_device) (call : cache_call) : Prop :=
  match call with
  | CallReserve _ current_thread => current_thread ≠ 0
  | CallRelease device => device ∈ devices
  | _ => True
  end.

(** Threads 1 and 2 hold the two devices; "cuda:0" is released twice, as
    after a nested [with] block of thread 1, and thread 3 takes it. *)
Definition cache_overreleased : ModelCache :=
  after_calls [CallRelease "cuda:0"; CallRelease "cuda:0"; CallReserve None 3]
    cache_two_reserved.

(** A [torch.nn.Module] whose class builds an empty shell from a
    configuration, diffusers style.  Its [to] sets the device and the dtype
    of the parameters; its [load_state_dict] copies the values into them at
    their precision, which rounds them (here, down to even). *)
Definition unet_class : py_class :=
  {| cls_name := "UNet2DConditionModel"; cls_has_from_config := true;
     cls_from_config := fun _ => inr {| ob_device := "meta"; ob_dtype := "float32";
                                       ob_data := [] |};
     cls_init := fun _ => inl AttributeError;
     cls_has_to := true; cls_has_load_state_dict := true;
     cls_to := fun device dtype o =>
                 inr {| ob_device := device; ob_dtype := dtype; ob_data := ob_data o |};
     cls_load_state_dict := fun state_dict o =>
                 inr {| ob_device := ob_device o; ob_dtype := ob_dtype o;
                        ob_data := (fun kv => (kv.1, kv.2 `div` 2 * 2)) <$> state_dict |} |}.

Definition module_U : AnyModel :=
  {| addr := 1; is_nn_module := true; has_to := true; nbytes := 40;
     model_config := [("in_channels", 4)]; model_class := unet_class |}.

(** * Properties *)

(** ** The device table *)

Section device_table.
Implicit Types (table : list (torch_device * thread_id)) (d : torch_device).
Implicit Types (t : thread_id).

Lemma devices_of_nil t : devices_of t [] = [].
Proof. done. Qed.

Lemma devices_of_cons t d owner table :
  devices_of t ((d, owner) :: table) =
  if decide (owner = t) then d :: devices_of t table else devices_of t table.
Proof.
  unfold devices_of. case_decide.
  - by rewrite filter_cons_True.
  - by rewrite filter_cons_False.
Qed.

Lemma devices_of_none t table :
  Forall (fun p => p.2 ≠ t) table ↔ devices_of t table = [].
Proof.
  induction table as [| [d owner] table IH].
  - split; [done | constructor].
  - rewrite devices_of_cons, Forall_cons. simpl. case_decide as Howner.
    + split; [by intros [Hne _] | done].
    + rewrite <- IH. split; [by intros [_ Hall] | by split].
Qed.

(** A caller that owns nothing owns exactly [d] once the table gives it [d]. *)
Lemma devices_of_dict_set t d table :
  devices_of t table = [] → devices_of t (dict_set d t table) = [d].
Proof.
  induction table as [| [d' owner] table IH]; simpl.
  - intros _. rewrite devices_of_cons. by rewrite decide_True.
  - rewrite devices_of_cons. case_decide as Howner; [done |]. intros Hnone.
    case_decide; rewrite devices_of_cons.
    + by rewrite decide_True, Hnone.
    + rewrite decide_False by done. auto.
Qed.

Lemma dict_get_set_eq {V} d (v : V) (dict : list (string * V)) :
  dict_get d (dict_set d v dict) = Some v.
Proof.
  induction dict as [| [d' v'] dict IH]; simpl.
  - by rewrite decide_True.
  - case_decide; simpl; [by rewrite decide_True | by rewrite decide_False].
Qed.

Lemma dict_get_set_ne {V} d d' (v : V) (dict : list (string * V)) :
  d' ≠ d → dict_get d' (dict_set d v dict) = dict_get d' dict.
Proof.
  intros Hne. induction dict as [| [d'' v'] dict IH]; simpl.
  - by rewrite decide_False.
  - case_decide; simpl; subst.
    + by rewrite !decide_False.
    + case_decide; [done | apply IH].
Qed.
End device_table.

Lemma reserve_enter_owned timeout t c d ds :
  devices_of t (_execution_devices c) = d :: ds →
  reserve_enter timeout t c = Returns d c.
Proof. intros Hown. unfold reserve_enter. by rewrite Hown. Qed.

Lemma set_free_execution_device_id c :
  set_free_execution_device (_free_execution_device c) c = c.
Proof. by destruct c. Qed.

(** C3: with a finite timeout, when every device is owned by another caller
    (no owner is 0, none is the caller), [reserve_execution_device] fails:
    the timed acquire hands out no device, picking one raises IndexError on
    the empty list of free devices, the body of the [with] never runs and the
    device table is left as it was, so the caller owns nothing.  When the
    semaphore has no permit the whole cache is unchanged. *)
Theorem reserve_timeout_no_device {A} (timeout : Z) (t : thread_id)
    (with_body : torch_device → ModelCache → outcome ModelCache A) (c : ModelCache) :
  Forall (fun p => p.2 ≠ 0 ∧ p.2 ≠ t) (_execution_devices c) →
  ∃ c', reserve_execution_device (Some timeout) t with_body c = Raises IndexError c'
        ∧ reserve_enter (Some timeout) t c = Raises IndexError c'
        ∧ _execution_devices c' = _execution_devices c
        ∧ devices_of t (_execution_devices c') = []
        ∧ (sem_value (_free_execution_device c) ≤ 0 → c' = c).
Proof.
  intros Hall.
  assert (devices_of 0 (_execution_devices c) = []) as Hfree.
  { apply devices_of_none. eapply Forall_impl; [exact Hall | by intros p [Hfree _]]. }
  assert (devices_of t (_execution_devices c) = []) as Hmine.
  { apply devices_of_none. eapply Forall_impl; [exact Hall | by intros p [_ Hmine]]. }
  unfold reserve_execution_device, reserve_enter, acquire. rewrite Hmine.
  case_decide as Hpermit; simpl; rewrite Hfree; simpl.
  - eexists. repeat split; [done | lia].
  - exists c. rewrite set_free_execution_device_id. repeat split; done.
Qed.

Lemma reserve_timeout_no_device_witness :
  ∃ c', reserve_execution_device (Some 1) 3
          (fun d c => Returns d c) cache_two_reserved = Raises IndexError c'
        ∧ reserve_enter (Some 1) 3 cache_two_reserved = Raises IndexError c'
        ∧ _execution_devices c' = _execution_devices cache_two_reserved
        ∧ devices_of 3 (_execution_devices c') = []
        ∧ (sem_value (_free_execution_device cache_two_reserved) ≤ 0
           → c' = cache_two_reserved).
Proof.
  apply (reserve_timeout_no_device 1 3 (fun d c => Returns d c) cache_two_reserved).
  vm_compute. repeat constructor; discriminate.
Defined.



(** ** Releasing a device *)

Lemma reserve_exit_at_bound d c :
  sem_initial (_free_execution_device c) ≤ sem_value (_free_execution_device c) →
  reserve_exit d c
  = Raises ValueError (set_execution_devices (dict_set d 0 (_execution_devices c)) c).
Proof.
  intros Hfull. unfold reserve_exit, release. simpl.
  rewrite decide_True by done. by destruct c.
Qed.

(** ** Keys, put, get, exists *)

Lemma exists_spec k tag c :
  exists_ k tag c = true ↔ is_Some (_cached_models c !! _make_cache_key k tag).
Proof. unfold exists_. by rewrite bool_decide_eq_true. Qed.

Lemma put_present k model tag c :
  is_Some (_cached_models c !! _make_cache_key k tag) →
  put k model tag c = Returns () c.
Proof. intros Hin. unfold put. by rewrite decide_True. Qed.

Lemma put_stores k model tag c c' :
  put k model tag c = Returns () c' →
  is_Some (_cached_models c' !! _make_cache_key k tag).
Proof.
  unfold put. case_decide as Hin.
  - by intros [= <-].
  - destruct (make_room (nbytes model) c) as [[] c1 | e c1 |]; simpl; [| done ..].
    intros [= <-]. simpl. rewrite lookup_insert_eq. by eexists.
Qed.

(** C7: once [put(k, m)] has returned, [exists(k)] is true, and a second
    [put] under the same canonical key returns at once with the cache as it
    was: the record, the recency list and everything else keep their value,
    and nothing is evicted. *)
Theorem put_idempotent (k : string) (tag : option SubModelType) (model : AnyModel)
    (c c' : ModelCache) :
  put k model tag c = Returns () c' →
  exists_ k tag c' = true
  ∧ ∀ model', put k model' tag c' = Returns () c'.
Proof.
  intros Hput. apply put_stores in Hput. split.
  - by apply exists_spec.
  - intros model'. by apply put_present.
Qed.

Lemma put_idempotent_witness :
  exists_ "A" None cache_A = true
  ∧ ∀ model', put "A" model' None cache_A = Returns () cache_A.
Proof.
  apply (put_idempotent "A" None model_A cache0 cache_A). reflexivity.
Defined.

(** C8: [get] on a key that is not in the store raises IndexError, the
    cache's NotFound; an attached stats block has [misses] one higher and
    every other counter as before; the store, the recency list, the records
    and the device table are those of before the call. *)
Theorem get_missing_key (k : string) (tag : option SubModelType)
    (stats_name : option string) (c : ModelCache) :
  exists_ k tag c = false →
  ∃ c', get k tag stats_name c = Raises IndexError c'
        ∧ _cached_models c' = _cached_models c
        ∧ _cache_stack c' = _cache_stack c
        ∧ records c' = records c
        ∧ objects c' = objects c
        ∧ _execution_devices c' = _execution_devices c
        ∧ _free_execution_device c' = _free_execution_device c
        ∧ _max_cache_size c' = _max_cache_size c
        ∧ match _stats c with
          | None => _stats c' = None
          | Some st =>
              ∃ st', _stats c' = Some st'
                     ∧ misses st' = misses st + 1
                     ∧ hits st' = hits st
                     ∧ high_watermark st' = high_watermark st
                     ∧ in_cache st' = in_cache st
                     ∧ cleared st' = cleared st
                     ∧ cache_size_stat st' = cache_size_stat st
                     ∧ loaded_model_sizes st' = loaded_model_sizes st
          end.
Proof.
  intros Hmiss. unfold exists_ in Hmiss. apply bool_decide_eq_false in Hmiss.
  rewrite <- eq_None_not_Some in Hmiss.
  unfold get. rewrite Hmiss. eexists. split; [done |]. simpl.
  repeat (split; [done |]).
  destruct (_stats c) as [st |]; simpl; [| done].
  eexists. split; [done |]. by simpl.
Qed.

Lemma get_missing_key_witness :
  ∃ c', get "Z" None None cache_AB = Raises IndexError c'
        ∧ _cached_models c' = _cached_models cache_AB
        ∧ _cache_stack c' = _cache_stack cache_AB
        ∧ records c' = records cache_AB
        ∧ objects c' = objects cache_AB
        ∧ _execution_devices c' = _execution_devices cache_AB
        ∧ _free_execution_device c' = _free_execution_device cache_AB
        ∧ _max_cache_size c' = _max_cache_size cache_AB
        ∧ match _stats cache_AB with
          | None => _stats c' = None
          | Some st =>
              ∃ st', _stats c' = Some st'
                     ∧ misses st' = misses st + 1
                     ∧ hits st' = hits st
                     ∧ high_watermark st' = high_watermark st
                     ∧ in_cache st' = in_cache st
                     ∧ cleared st' = cleared st
                     ∧ cache_size_stat st' = cache_size_stat st
                     ∧ loaded_model_sizes st' = loaded_model_sizes st
          end.
Proof.
  apply (get_missing_key "Z" None None cache_AB). vm_compute. reflexivity.
Defined.

(** C10: the bare model key "a:b" and the model key "a" with a submodel tag
    of value "b" are two different ways to address the cache that form the
    same canonical key, so [exists], [get] and [put] cannot tell them
    apart. *)
Theorem cache_key_collision (a : string) (tag : SubModelType) (model : AnyModel)
    (stats_name : option string) (c : ModelCache) :
  (a +:+ ":" +:+ value tag, @None SubModelType) ≠ (a, Some tag)
  ∧ _make_cache_key (a +:+ ":" +:+ value tag) None = a +:+ ":" +:+ value tag
  ∧ _make_cache_key a (Some tag) = a +:+ ":" +:+ value tag
  ∧ exists_ (a +:+ ":" +:+ value tag) None c = exists_ a (Some tag) c
  ∧ get (a +:+ ":" +:+ value tag) None stats_name c = get a (Some tag) stats_name c
  ∧ put (a +:+ ":" +:+ value tag) model None c = put a model (Some tag) c.
Proof. repeat split. congruence. Qed.

Lemma make_room_fits sz c :
  over_budget (cache_size c) sz (_max_cache_size c * inject_Z GIG)%Q = false →
  make_room sz c = Returns () c.
Proof.
  intros Hfits. unfold make_room. cbn [make_room_loop]. by rewrite Hfits.
Qed.

(** A [put] that needs no eviction always returns. *)
Lemma put_returns_when_fits k model tag c :
  over_budget (cache_size c) (nbytes model) (_max_cache_size c * inject_Z GIG)%Q = false →
  ∃ c', put k model tag c = Returns () c'.
Proof.
  intros Hfits. unfold put. case_decide; [by eexists |].
  rewrite make_room_fits by done. simpl. by eexists.
Qed.

(** ** Moving a model to a device *)



(** ** The lock handle *)

(** C4 on the code: thread 1 holds "cuda:0" and asks for the handle of "M",
    a module whose class runs out of memory when it is rebuilt on a device.
    Moving the record of "M" to the device raises OutOfMemoryError, but
    [lock] never gets that far: its first statement calls [lock()] on the
    record, a method that no record class defines, and the call raises
    AttributeError before the [try] is entered.  No counter is incremented or
    decremented, nothing is moved, and the error that reaches the caller is
    not the one of the move.  The same holds of every handle, every thread
    and every cache, and of [unlock]. *)
Theorem lock_raises_attribute_error :
  (∃ self c1 r,
     get "M" None None cache_M = Returns self c1
     ∧ get_execution_device 1 c1 = Returns "cuda:0" c1
     ∧ records c1 !! _cache_entry self = Some r
     ∧ model_to_device r "cuda:0" c1 = Raises OutOfMemoryError (objects c1)
     ∧ lock self 1 c1 = Raises AttributeError c1)
  ∧ (∀ self t c, lock self t c = Raises AttributeError c)
  ∧ (∀ self c, unlock self c = Raises AttributeError c).
Proof.
  split; [| by split].
  eexists _, _, _. split; [reflexivity |]. by repeat split.
Qed.

(** ** Making room *)

Lemma list_remove_first_absent k (l : list string) :
  k ∉ l → list_remove_first k l = None.
Proof.
  induction l as [| y l IH]; [done |]. intros Hnotin. simpl.
  rewrite decide_False by set_solver. rewrite IH by set_solver. done.
Qed.

Lemma list_remove_first_length k (l l' : list string) :
  list_remove_first k l = Some l' → length l = S (length l').
Proof.
  revert l'. induction l as [| y l IH]; intros l'; [done |]. simpl.
  case_decide; [by intros [= ->] |].
  destruct (list_remove_first k l) as [l0 |]; [| done].
  simpl. intros [= <-]. simpl. by rewrite (IH l0).
Qed.

(** An eviction on a recency list whose head key does not occur again, as on
    every list without repetition: [pop(0)] has taken the key off the list
    when [_delete_cache_entry] looks for it there, and [list.remove] raises
    ValueError.  The record stays in the store, its key is gone from the
    list. *)
Lemma make_room_eviction_raises sz c k stack cache_entry :
  over_budget (cache_size c) sz (_max_cache_size c * inject_Z GIG)%Q = true →
  _cache_stack c = k :: stack →
  k ∉ stack →
  lookup_record k c = Some cache_entry →
  key cache_entry = k →
  make_room sz c = Raises ValueError (set_cache_stack stack c).
Proof.
  intros Hover Hstack Hfresh Hrec Hkey. unfold make_room.
  cbn [make_room_loop]. rewrite Hover, Hstack.
  assert (lookup_record k (set_cache_stack stack c) = Some cache_entry) as -> by done.
  unfold _delete_cache_entry. simpl. rewrite Hkey.
  by rewrite list_remove_first_absent.
Qed.

(** The loop of [make_room] stops: the fuel it is given is never used up. *)
Lemma make_room_loop_stops fuel sz maximum current_size cleared_so_far c :
  (length (_cache_stack c) < fuel)%nat →
  make_room_loop fuel sz maximum current_size cleared_so_far c ≠ Hangs.
Proof.
  revert current_size cleared_so_far c.
  induction fuel as [| fuel IH]; intros current_size cleared_so_far c Hlen; [lia |].
  cbn [make_room_loop]. destruct (over_budget _ _ _); [| done].
  destruct (_cache_stack c) as [| k stack] eqn:Hstack; [done |].
  destruct (lookup_record k _) as [cache_entry |]; [| done].
  unfold _delete_cache_entry. simpl.
  destruct (list_remove_first _ stack) as [stack' |] eqn:Hrem; [| done].
  destruct (_cached_models c !! key cache_entry); [| done]. simpl.
  apply IH. simpl. apply list_remove_first_length in Hrem. simpl in Hlen. lia.
Qed.

Lemma make_room_stops sz c : make_room sz c ≠ Hangs.
Proof.
  unfold make_room.
  pose proof (make_room_loop_stops (S (length (_cache_stack c))) sz
                (_max_cache_size c * inject_Z GIG)%Q (cache_size c) 0 c) as Hloop.
  destruct (make_room_loop _ _ _ _ _ _) as [n c1 | e c1 |]; simpl.
  - by case_decide.
  - done.
  - exfalso. apply Hloop; [lia | done].
Qed.

(** C1 on the code: budget 100, "A", "B" and "C" of 40 bytes each.  The
    third [put] has to evict "A".  [make_room] pops "A" off the recency list
    and [_delete_cache_entry] then fails to remove it from that list a second
    time: the [put] raises ValueError, "A" and "B" are both still stored,
    "C" is not, and the counter of evictions is still 0. *)
Theorem put_third_model_raises :
  _cache_stack cache_AB = ["A"; "B"]
  ∧ cache_size cache_AB = 80
  ∧ ∃ c', put "C" model_C None cache_AB = Raises ValueError c'
          ∧ _cache_stack c' = ["B"]
          ∧ is_Some (_cached_models c' !! "A")
          ∧ is_Some (_cached_models c' !! "B")
          ∧ _cached_models c' !! "C" = None
          ∧ cleared <$> _stats c' = Some 0.
Proof.
  split; [reflexivity |]. split; [reflexivity |].
  eexists. split; [reflexivity |].
  repeat split; try reflexivity; by eexists.
Qed.

(** * Further properties *)

(** ** The device table as a dictionary *)

Lemma dict_set_keys {V} d (v : V) (dict : list (string * V)) :
  (dict_set d v dict).*1 = if decide (d ∈ dict.*1) then dict.*1 else dict.*1 ++ [d].
Proof.
  induction dict as [| [d' v'] dict IH]; [done |].
  cbn [dict_set]. destruct (decide (d = d')) as [<- | Hne].
  - rewrite decide_True; [done | apply elem_of_cons; by left].
  - rewrite !fmap_cons, IH. cbn [fst]. destruct (decide (d ∈ dict.*1)) as [Hin | Hnotin].
    + rewrite decide_True; [done | apply elem_of_cons; by right].
    + rewrite decide_False; [done |]. by intros [? | ?]%elem_of_cons.
Qed.

Lemma dict_set_keys_elem {V} d (v : V) (dict : list (string * V)) :
  d ∈ dict.*1 → (dict_set d v dict).*1 = dict.*1.
Proof. intros Hin. rewrite dict_set_keys. by rewrite decide_True. Qed.

Lemma dict_set_NoDup {V} d (v : V) (dict : list (string * V)) :
  NoDup dict.*1 → NoDup (dict_set d v dict).*1.
Proof.
  intros Hnd. rewrite dict_set_keys. case_decide as Hd; [done |].
  apply NoDup_app. split; [done |]. split; [| apply NoDup_singleton].
  intros x Hx ->%list_elem_of_singleton. done.
Qed.

Lemma dict_set_set {V} d (v w : V) (dict : list (string * V)) :
  dict_set d v (dict_set d w dict) = dict_set d v dict.
Proof.
  induction dict as [| [d' v'] dict IH]; simpl.
  - by rewrite decide_True.
  - case_decide; simpl; [by rewrite decide_True |].
    rewrite decide_False by done. by rewrite IH.
Qed.

Lemma dict_set_id {V} d (v : V) (dict : list (string * V)) :
  dict_get d dict = Some v → dict_set d v dict = dict.
Proof.
  induction dict as [| [d' v'] dict IH]; simpl; [done |].
  case_decide; [by intros [= ->]; subst |]. intros Hget. by rewrite IH.
Qed.

Lemma devices_of_keys t d (table : list (torch_device * thread_id)) :
  d ∈ devices_of t table → d ∈ table.*1.
Proof.
  induction table as [| [d' owner] table IH]; [by rewrite devices_of_nil |].
  rewrite devices_of_cons. simpl. case_decide.
  - intros [-> | Hin]%elem_of_cons; apply elem_of_cons; [by left | right; auto].
  - intros Hin. apply elem_of_cons. right. auto.
Qed.

(** In a dictionary, the devices of [t] are those whose entry names [t]. *)
Lemma devices_of_dict_get t d (table : list (torch_device * thread_id)) :
  NoDup table.*1 → d ∈ devices_of t table ↔ dict_get d table = Some t.
Proof.
  induction table as [| [d' owner] table IH]; simpl.
  - intros _. rewrite devices_of_nil. split; [by intros ?%elem_of_nil | done].
  - intros [Hfresh Hnd]%NoDup_cons. rewrite devices_of_cons.
    destruct (decide (d = d')) as [-> | Hne].
    + case_decide as Howner; subst.
      * split; [done | intros _; apply elem_of_cons; by left].
      * split; [| congruence]. intros Hin%devices_of_keys. done.
    + rewrite <- (IH Hnd). case_decide; [| done].
      rewrite elem_of_cons. split; [by intros [? | ?] | by right].
Qed.

Lemma devices_of_dict_set_other t d v o (table : list (torch_device * thread_id)) :
  dict_get d table = Some o → o ≠ t → v ≠ t →
  devices_of t (dict_set d v table) = devices_of t table.
Proof.
  intros Hget Ho Hv. induction table as [| [d' owner] table IH]; simpl in *; [done |].
  case_decide; subst.
  - injection Hget as ->. rewrite !devices_of_cons. by rewrite !decide_False.
  - rewrite !devices_of_cons. by rewrite IH.
Qed.

Lemma devices_of_released t d (table : list (torch_device * thread_id)) :
  NoDup table.*1 → t ≠ 0 → devices_of t table = [d] →
  devices_of t (dict_set d 0 table) = [].
Proof.
  intros Hnd Ht. induction table as [| [d' owner] table IH]; simpl; [done |].
  apply NoDup_cons in Hnd as [Hfresh Hnd]. rewrite devices_of_cons.
  case_decide as Howner; subst.
  - intros [= -> Hrest]. rewrite decide_True by done.
    rewrite devices_of_cons. by rewrite decide_False.
  - intros Hrest. case_decide; subst.
    + exfalso. apply Hfresh. apply (devices_of_keys t). rewrite Hrest. apply elem_of_cons. by left.
    + rewrite devices_of_cons, decide_False by done. by apply IH.
Qed.

(** ** Reserving and releasing devices *)

Lemma reserve_enter_owns timeout t c c1 d :
  reserve_enter timeout t c = Returns d c1 →
  ∃ ds, devices_of t (_execution_devices c1) = d :: ds.
Proof.
  unfold reserve_enter.
  destruct (devices_of t (_execution_devices c)) as [| d0 ds] eqn:Hmine.
  - destruct (acquire timeout (_free_execution_device c)) as [b sem | e sem |]; [| done ..].
    simpl. destruct (devices_of 0 (_execution_devices c)) as [| free0 frees]; [done |].
    intros [= <- <-]. exists []. simpl. by apply devices_of_dict_set.
  - intros [= <- <-]. by exists ds.
Qed.

(** X1: the device that a reservation returns is the one that
    [get_execution_device] reports to the same thread afterwards. *)
Theorem reserve_then_get_execution_device (timeout : option Z) (t : thread_id)
    (c c1 : ModelCache) (d : torch_device) :
  reserve_enter timeout t c = Returns d c1 →
  get_execution_device t c1 = Returns d c1.
Proof.
  intros [ds Hown]%reserve_enter_owns. unfold get_execution_device. by rewrite Hown.
Qed.

Lemma reserve_then_get_execution_device_witness :
  get_execution_device 1 cache_one_reserved = Returns "cuda:0" cache_one_reserved.
Proof.
  apply (reserve_then_get_execution_device None 1 cache0 cache_one_reserved "cuda:0").
  reflexivity.
Defined.

Lemma reserve_enter_fresh timeout t c c1 d :
  devices_of t (_execution_devices c) = [] →
  reserve_enter timeout t c = Returns d c1 →
  ∃ frees sem,
    devices_of 0 (_execution_devices c) = d :: frees
    ∧ c1 = set_execution_devices (dict_set d t (_execution_devices c))
             (set_free_execution_device sem c)
    ∧ ((0 < sem_value (_free_execution_device c)
        ∧ sem = {| sem_value := sem_value (_free_execution_device c) - 1;
                   sem_initial := sem_initial (_free_execution_device c) |})
       ∨ (sem_value (_free_execution_device c) ≤ 0 ∧ is_Some timeout
          ∧ sem = _free_execution_device c)).
Proof.
  intros Hmine. unfold reserve_enter, acquire. rewrite Hmine.
  destruct (decide (0 < sem_value (_free_execution_device c))) as [Hpermit | Hnone].
  - simpl. destruct (devices_of 0 (_execution_devices c)) as [| free0 frees]; [done |].
    intros [= <- <-]. eexists frees, _. split; [done |]. split; [done |]. by left.
  - destruct timeout as [secs |]; simpl; [| done].
    destruct (devices_of 0 (_execution_devices c)) as [| free0 frees]; [done |].
    intros [= <- <-]. eexists frees, _. split; [done |]. split; [done |].
    right. split; [lia |]. by split.
Qed.

Lemma reserve_enter_fresh_facts (timeout : option Z) (t : thread_id)
    (c c1 : ModelCache) (d : torch_device) :
  NoDup (_execution_devices c).*1 →
  devices_of t (_execution_devices c) = [] →
  reserve_enter timeout t c = Returns d c1 →
  dict_get d (_execution_devices c) = Some 0
  ∧ dict_get d (_execution_devices c1) = Some t
  ∧ (∀ d', d' ≠ d →
       dict_get d' (_execution_devices c1) = dict_get d' (_execution_devices c))
  ∧ (_execution_devices c1).*1 = (_execution_devices c).*1
  ∧ (0 < sem_value (_free_execution_device c) →
       sem_value (_free_execution_device c1) = sem_value (_free_execution_device c) - 1)
  ∧ (sem_value (_free_execution_device c) ≤ 0 →
       _free_execution_device c1 = _free_execution_device c).
Proof.
  intros Hnd Hmine Henter.
  destruct (reserve_enter_fresh _ _ _ _ _ Hmine Henter)
    as (frees & sem & Hfree & -> & Hsem).
  assert (d ∈ devices_of 0 (_execution_devices c)) as Hin.
  { rewrite Hfree. apply elem_of_cons. by left. }
  simpl. split; [by apply devices_of_dict_get |].
  split; [apply dict_get_set_eq |].
  split; [intros d' Hne; by apply dict_get_set_ne |].
  split; [apply dict_set_keys_elem; by apply (devices_of_keys 0) |].
  destruct Hsem as [[Hpos ->] | (Hnone & _ & ->)]; split; simpl; intros; (done || lia).
Qed.

(** X2: a thread that owns no device is only ever given a device that nobody
    owned.  The call records the thread as its owner, leaves the owner of
    every other device alone and keeps the set of devices; it takes one permit
    when there is one, and no more than one. *)
Theorem reserve_enter_takes_free_device (timeout : option Z) (t : thread_id)
    (c c1 : ModelCache) (d : torch_device) :
  NoDup (_execution_devices c).*1 →
  devices_of t (_execution_devices c) = [] →
  reserve_enter timeout t c = Returns d c1 →
  dict_get d (_execution_devices c) = Some 0
  ∧ dict_get d (_execution_devices c1) = Some t
  ∧ (∀ d', d' ≠ d →
       dict_get d' (_execution_devices c1) = dict_get d' (_execution_devices c))
  ∧ (_execution_devices c1).*1 = (_execution_devices c).*1
  ∧ (0 < sem_value (_free_execution_device c) →
       sem_value (_free_execution_device c1) = sem_value (_free_execution_device c) - 1)
  ∧ (sem_value (_free_execution_device c) ≤ 0 →
       _free_execution_device c1 = _free_execution_device c).
Proof. apply reserve_enter_fresh_facts. Qed.

Lemma reserve_enter_takes_free_device_witness :
  dict_get "cuda:1" (_execution_devices cache_one_reserved) = Some 0
  ∧ dict_get "cuda:1" (_execution_devices cache_two_reserved) = Some 2
  ∧ (∀ d', d' ≠ "cuda:1" →
       dict_get d' (_execution_devices cache_two_reserved)
       = dict_get d' (_execution_devices cache_one_reserved))
  ∧ (_execution_devices cache_two_reserved).*1 = (_execution_devices cache_one_reserved).*1
  ∧ (0 < sem_value (_free_execution_device cache_one_reserved) →
       sem_value (_free_execution_device cache_two_reserved)
       = sem_value (_free_execution_device cache_one_reserved) - 1)
  ∧ (sem_value (_free_execution_device cache_one_reserved) ≤ 0 →
       _free_execution_device cache_two_reserved
       = _free_execution_device cache_one_reserved).
Proof.
  apply (reserve_enter_takes_free_device None 2 cache_one_reserved cache_two_reserved
           "cuda:1"); [| reflexivity | reflexivity].
  by apply (bool_decide_unpack _).
Defined.

(** X3: two different threads never hold the same device.  When thread [t1]
    has reserved [d1] and thread [t2] reserves next, [t2] gets another device,
    and [t1] still holds [d1] afterwards. *)
Theorem reserve_exclusive (timeout1 timeout2 : option Z) (t1 t2 : thread_id)
    (c c1 c2 : ModelCache) (d1 d2 : torch_device) :
  NoDup (_execution_devices c).*1 →
  t1 ≠ 0 → t1 ≠ t2 →
  devices_of t1 (_execution_devices c) = [] →
  reserve_enter timeout1 t1 c = Returns d1 c1 →
  reserve_enter timeout2 t2 c1 = Returns d2 c2 →
  d1 ≠ d2 ∧ get_execution_device t1 c2 = Returns d1 c2.
Proof.
  intros Hnd Ht1 Hne Hnone1 Henter1 Henter2.
  destruct (reserve_enter_fresh_facts _ _ _ _ _ Hnd Hnone1 Henter1)
    as (_ & Hd1 & _ & Hkeys & _).
  assert (NoDup (_execution_devices c1).*1) as Hnd1 by by rewrite Hkeys.
  destruct (reserve_enter_owns _ _ _ _ _ Henter1) as [ds1 Hown1].
  destruct (devices_of t2 (_execution_devices c1)) as [| d0 ds] eqn:Hmine2.
  - destruct (reserve_enter_fresh_facts _ _ _ _ _ Hnd1 Hmine2 Henter2)
      as (Hfree2 & _ & _ & _).
    assert (d1 ≠ d2) as Hdiff by (intros ->; congruence).
    split; [done |].
    destruct (reserve_enter_fresh _ _ _ _ _ Hmine2 Henter2) as (frees & sem & _ & -> & _).
    unfold get_execution_device. simpl.
    rewrite (devices_of_dict_set_other t1 d2 t2 0) by done. by rewrite Hown1.
  - rewrite (reserve_enter_owned _ _ _ _ _ Hmine2) in Henter2.
    injection Henter2 as <- <-.
    assert (dict_get d0 (_execution_devices c1) = Some t2) as Hd0.
    { apply devices_of_dict_get; [done |]. rewrite Hmine2. apply elem_of_cons. by left. }
    split; [intros ->; congruence |].
    unfold get_execution_device. by rewrite Hown1.
Qed.

Lemma reserve_exclusive_witness :
  "cuda:0" ≠ "cuda:1"
  ∧ get_execution_device 1 cache_two_reserved = Returns "cuda:0" cache_two_reserved.
Proof.
  apply (reserve_exclusive None None 1 2 cache0 cache_one_reserved cache_two_reserved
           "cuda:0" "cuda:1"); try reflexivity; try done.
  by apply (bool_decide_unpack _).
Defined.

(** X4: when a permit is available and no device is unowned, the permit is
    taken before the missing device is noticed: the call raises IndexError
    and the semaphore has one permit less, for no device handed out. *)
Theorem reserve_enter_loses_permit (timeout : option Z) (t : thread_id) (c : ModelCache) :
  devices_of t (_execution_devices c) = [] →
  devices_of 0 (_execution_devices c) = [] →
  0 < sem_value (_free_execution_device c) →
  ∃ c', reserve_enter timeout t c = Raises IndexError c'
        ∧ _execution_devices c' = _execution_devices c
        ∧ sem_value (_free_execution_device c') = sem_value (_free_execution_device c) - 1.
Proof.
  intros Hmine Hfree Hpermit. unfold reserve_enter, acquire. rewrite Hmine.
  rewrite decide_True by done. simpl. rewrite Hfree. by eexists.
Qed.

Lemma reserve_enter_loses_permit_witness :
  ∃ c', reserve_enter None 4 cache_overreleased = Raises IndexError c'
        ∧ _execution_devices c' = _execution_devices cache_overreleased
        ∧ sem_value (_free_execution_device c')
          = sem_value (_free_execution_device cache_overreleased) - 1.
Proof.
  apply (reserve_enter_loses_permit None 4 cache_overreleased); reflexivity.
Defined.

(** ** The registry invariant *)

Lemma devices_of_length t (table : list (torch_device * thread_id)) :
  (length (devices_of t table) ≤ length table)%nat.
Proof.
  induction table as [| [d owner] table IH]; [done |].
  rewrite devices_of_cons. case_decide; simpl; lia.
Qed.

Lemma free_devices_taken d t (table : list (torch_device * thread_id)) :
  dict_get d table = Some 0 → t ≠ 0 →
  S (length (devices_of 0 (dict_set d t table))) = length (devices_of 0 table).
Proof.
  intros Hget Ht. induction table as [| [d' owner] table IH]; [done |].
  cbn [dict_set dict_get] in *. destruct (decide (d = d')) as [<- | Hne].
  - injection Hget as ->. rewrite !devices_of_cons.
    by rewrite decide_False, decide_True.
  - rewrite !devices_of_cons. case_decide; simpl; rewrite <- IH; done.
Qed.

Lemma free_devices_released d (table : list (torch_device * thread_id)) :
  (length (devices_of 0%Z (dict_set d 0%Z table))
   ≤ S (length (devices_of 0%Z table)))%nat.
Proof.
  induction table as [| [d' owner] table IH]; [simpl; lia |].
  cbn [dict_set]. destruct (decide (d = d')) as [<- | Hne].
  - rewrite !devices_of_cons. rewrite decide_True by done. case_decide; simpl; lia.
  - rewrite !devices_of_cons. case_decide; simpl; lia.
Qed.

Lemma dict_set_length_elem {V} d (v : V) (dict : list (string * V)) :
  d ∈ dict.*1 → length (dict_set d v dict) = length dict.
Proof.
  intros Hin. rewrite <- (length_fmap fst), dict_set_keys_elem by done.
  by rewrite length_fmap.
Qed.

Lemma reserve_enter_wf (timeout : option Z) (t : thread_id) (c : ModelCache) :
  devices_wf c → t ≠ 0 →
  devices_wf (state_of c (reserve_enter timeout t c))
  ∧ (_execution_devices (state_of c (reserve_enter timeout t c))).*1
    = (_execution_devices c).*1.
Proof.
  intros (Hnd & Hbounds & Hcap & Hcover) Ht.
  destruct (devices_of t (_execution_devices c)) as [| d0 ds] eqn:Hmine.
  2: { by rewrite (reserve_enter_owned _ _ _ _ _ Hmine). }
  unfold reserve_enter, acquire. rewrite Hmine.
  destruct (decide (0 < sem_value (_free_execution_device c))) as [Hpermit | Hnone].
  - simpl. destruct (devices_of 0 (_execution_devices c)) as [| free0 frees] eqn:Hfree.
    + unfold devices_wf. simpl. rewrite Hfree. simpl. repeat split; (done || lia).
    + assert (free0 ∈ devices_of 0 (_execution_devices c)) as Hin.
      { rewrite Hfree. apply elem_of_cons. by left. }
      pose proof (devices_of_keys _ _ _ Hin) as Hkey.
      assert (dict_get free0 (_execution_devices c) = Some 0) as Hget
        by by apply devices_of_dict_get.
      pose proof (free_devices_taken _ t _ Hget Ht) as Hcount.
      rewrite Hfree in Hcount. cbn [length] in Hcount, Hcover.
      unfold devices_wf. simpl.
      rewrite dict_set_keys_elem, dict_set_length_elem by done.
      unfold torch_device, thread_id in *. repeat split; (done || lia).
  - destruct timeout as [secs |]; simpl; [| done].
    destruct (devices_of 0 (_execution_devices c)) as [| free0 frees] eqn:Hfree.
    + unfold devices_wf. simpl. rewrite Hfree. simpl. repeat split; (done || lia).
    + cbn [length] in Hcover. lia.
Qed.

(** X5: the registry invariant is kept by every reservation of a real
    thread, whether it returns, raises or times out: the table stays a
    dictionary over the same devices, the semaphore stays within its bounds
    and every unowned device stays covered by a permit. *)
Theorem reserve_enter_devices_wf (timeout : option Z) (t : thread_id) (c : ModelCache) :
  devices_wf c → t ≠ 0 →
  devices_wf (state_of c (reserve_enter timeout t c))
  ∧ (_execution_devices (state_of c (reserve_enter timeout t c))).*1
    = (_execution_devices c).*1.
Proof. apply reserve_enter_wf. Qed.

Lemma reserve_enter_devices_wf_witness :
  devices_wf (state_of cache_one_reserved (reserve_enter None 2 cache_one_reserved))
  ∧ (_execution_devices
       (state_of cache_one_reserved (reserve_enter None 2 cache_one_reserved))).*1
    = (_execution_devices cache_one_reserved).*1.
Proof.
  apply (reserve_enter_devices_wf None 2 cache_one_reserved); [| done].
  split; [by apply (bool_decide_unpack _) |]. vm_compute. repeat split; discriminate.
Defined.

Lemma reserve_exit_wf (d : torch_device) (c : ModelCache) :
  devices_wf c → d ∈ (_execution_devices c).*1 →
  devices_wf (state_of c (reserve_exit d c))
  ∧ (_execution_devices (state_of c (reserve_exit d c))).*1 = (_execution_devices c).*1.
Proof.
  intros (Hnd & Hbounds & Hcap & Hcover) Hin.
  pose proof (free_devices_released d (_execution_devices c)) as Hcount.
  pose proof (devices_of_length 0 (dict_set d 0 (_execution_devices c))) as Hlen.
  rewrite dict_set_length_elem in Hlen by done.
  unfold reserve_exit, release. simpl.
  destruct (decide (sem_initial (_free_execution_device c)
                    ≤ sem_value (_free_execution_device c))) as [Hfull | Hbelow];
    unfold devices_wf; simpl;
    rewrite dict_set_keys_elem, dict_set_length_elem by done;
    unfold torch_device, thread_id in *; repeat split; (done || lia).
Qed.

(** X6: the registry invariant is kept by every release of a device of the
    table, also when the device was unowned already and when the semaphore
    refuses the release. *)
Theorem reserve_exit_devices_wf (d : torch_device) (c : ModelCache) :
  devices_wf c → d ∈ (_execution_devices c).*1 →
  devices_wf (state_of c (reserve_exit d c))
  ∧ (_execution_devices (state_of c (reserve_exit d c))).*1 = (_execution_devices c).*1.
Proof. apply reserve_exit_wf. Qed.

Lemma reserve_exit_devices_wf_witness :
  devices_wf (state_of cache_one_released (reserve_exit "cuda:0" cache_one_released))
  ∧ (_execution_devices
       (state_of cache_one_released (reserve_exit "cuda:0" cache_one_released))).*1
    = (_execution_devices cache_one_released).*1.
Proof.
  apply (reserve_exit_devices_wf "cuda:0" cache_one_released).
  - split; [by apply (bool_decide_unpack _) |]. vm_compute. repeat split; discriminate.
  - by apply (bool_decide_unpack _).
Defined.

(** X7: in a registry that satisfies the invariant, a reservation that finds
    no permit within its timeout never succeeds: there is no unowned device
    either, the call raises IndexError and the cache is unchanged. *)
Theorem reserve_enter_no_permit (timeout : Z) (t : thread_id) (c : ModelCache) :
  devices_wf c →
  devices_of t (_execution_devices c) = [] →
  sem_value (_free_execution_device c) ≤ 0 →
  reserve_enter (Some timeout) t c = Raises IndexError c.
Proof.
  intros (Hnd & Hbounds & Hcap & Hcover) Hmine Hnone.
  unfold reserve_enter, acquire. rewrite Hmine. rewrite decide_False by lia.
  rewrite set_free_execution_device_id.
  destruct (devices_of 0 (_execution_devices c)); [done |]. cbn [length] in Hcover. lia.
Qed.

Lemma reserve_enter_no_permit_witness :
  reserve_enter (Some 1) 3 cache_two_reserved = Raises IndexError cache_two_reserved.
Proof.
  apply (reserve_enter_no_permit 1 3 cache_two_reserved); [| reflexivity | by vm_compute].
  split; [by apply (bool_decide_unpack _) |]. vm_compute. repeat split; discriminate.
Defined.

(** ** The [with] block *)

(** X8: a [with] block of a thread that owned no device gives the registry
    back as it found it.  If the body returns or raises and leaves the device
    table and the semaphore alone, then the block returns the same value or
    raises the same exception, and afterwards the device table and the
    semaphore are those of before the block. *)
Theorem reserve_scope_restores {A} (timeout : option Z) (t : thread_id)
    (with_body : torch_device → ModelCache → outcome ModelCache A)
    (c c1 : ModelCache) (d : torch_device) :
  NoDup (_execution_devices c).*1 →
  0 < sem_value (_free_execution_device c) ≤ sem_initial (_free_execution_device c) →
  devices_of t (_execution_devices c) = [] →
  reserve_enter timeout t c = Returns d c1 →
  with_body d c1 ≠ Hangs →
  _execution_devices (state_of c1 (with_body d c1)) = _execution_devices c1 →
  _free_execution_device (state_of c1 (with_body d c1)) = _free_execution_device c1 →
  reserve_execution_device timeout t with_body c
  = map_state
      (fun c2 => set_free_execution_device (_free_execution_device c)
                   (set_execution_devices (_execution_devices c) c2))
      (with_body d c1).
Proof.
  intros Hnd Hsem Hmine Henter Hends Htable Hpermits.
  destruct (reserve_enter_fresh_facts _ _ _ _ _ Hnd Hmine Henter)
    as (Hfree & _ & _ & _ & _).
  destruct (reserve_enter_fresh _ _ _ _ _ Hmine Henter)
    as (frees & sem & _ & Hc1 & [[_ ->] | [Hnone _]]); [| lia].
  unfold reserve_execution_device. rewrite Henter. simpl.
  assert (_execution_devices c1 = dict_set d t (_execution_devices c)) as Htable1
    by by rewrite Hc1.
  assert (_free_execution_device c1
          = {| sem_value := sem_value (_free_execution_device c) - 1;
               sem_initial := sem_initial (_free_execution_device c) |}) as Hsem1
    by by rewrite Hc1.
  assert (∀ c2, _execution_devices c2 = _execution_devices c1 →
                _free_execution_device c2 = _free_execution_device c1 →
                reserve_exit d c2
                = Returns () (set_free_execution_device (_free_execution_device c)
                                (set_execution_devices (_execution_devices c) c2)))
    as Hexit.
  { intros c2 Ht2 Hs2. unfold reserve_exit, release. simpl.
    rewrite Ht2, Hs2, Htable1, Hsem1. simpl.
    rewrite decide_False by lia. rewrite dict_set_set.
    unfold thread_id, torch_device in *. rewrite (dict_set_id _ _ _ Hfree).
    replace (sem_value (_free_execution_device c) - 1 + 1)
      with (sem_value (_free_execution_device c)) by lia.
    by destruct (_free_execution_device c). }
  destruct (with_body d c1) as [a c2 | e c2 |]; [| | done]; simpl in *;
    by rewrite Hexit.
Qed.

Lemma reserve_scope_restores_witness :
  reserve_execution_device None 1 (fun d c => get "A" None None c) cache_A
  = map_state
      (fun c2 => set_free_execution_device (_free_execution_device cache_A)
                   (set_execution_devices (_execution_devices cache_A) c2))
      (get "A" None None (state_of cache0 (reserve_enter None 1 cache_A))).
Proof.
  apply (reserve_scope_restores None 1 (fun d c => get "A" None None c) cache_A
           (state_of cache0 (reserve_enter None 1 cache_A)) "cuda:0");
    try reflexivity; try done.
  by apply (bool_decide_unpack _).
Defined.

(** X9: a nested [with] block gives up the device of the enclosing one.  A
    thread that holds device [d] and runs a nested block holds no device when
    the nested block is left, though the enclosing block is still running:
    [get_execution_device] raises ValueError, and a permit that was never
    taken has been signalled. *)
Theorem nested_scope_releases_outer {A} (timeout : option Z) (t : thread_id)
    (with_body : torch_device → ModelCache → outcome ModelCache A)
    (c c2 : ModelCache) (d : torch_device) (a : A) :
  NoDup (_execution_devices c).*1 →
  t ≠ 0 →
  devices_of t (_execution_devices c) = [d] →
  sem_value (_free_execution_device c) < sem_initial (_free_execution_device c) →
  with_body d c = Returns a c2 →
  _execution_devices c2 = _execution_devices c →
  _free_execution_device c2 = _free_execution_device c →
  ∃ c3, reserve_execution_device timeout t with_body c = Returns a c3
        ∧ get_execution_device t c3 = Raises ValueError c3
        ∧ dict_get d (_execution_devices c3) = Some 0
        ∧ sem_value (_free_execution_device c3)
          = sem_value (_free_execution_device c) + 1.
Proof.
  intros Hnd Ht Hmine Hbelow Hbody Htable Hpermits.
  unfold reserve_execution_device.
  rewrite (reserve_enter_owned _ _ _ _ _ Hmine). simpl. rewrite Hbody.
  unfold reserve_exit, release. simpl. rewrite Htable, Hpermits.
  rewrite decide_False by lia. simpl. eexists. split; [done |].
  unfold get_execution_device. simpl.
  rewrite (devices_of_released _ _ _ Hnd Ht Hmine).
  split; [done |]. split; [apply dict_get_set_eq | done].
Qed.

Lemma nested_scope_releases_outer_witness :
  ∃ c3, reserve_execution_device (Some 5) 1 (fun d c => Returns d c) cache_one_reserved
        = Returns "cuda:0" c3
        ∧ get_execution_device 1 c3 = Raises ValueError c3
        ∧ dict_get "cuda:0" (_execution_devices c3) = Some 0
        ∧ sem_value (_free_execution_device c3)
          = sem_value (_free_execution_device cache_one_reserved) + 1.
Proof.
  apply (nested_scope_releases_outer (Some 5) 1 (fun d c => Returns d c)
           cache_one_reserved cache_one_reserved "cuda:0" "cuda:0");
    try reflexivity; try done.
  by apply (bool_decide_unpack _).
Defined.

(** C6 on the code: a thread that nests one [with] block in another.  Thread
    [t] owns no device and enters a block, which gives it device [d] and
    takes a permit; inside, it enters a second block, which finds [d]
    assigned to [t] and takes no permit.  The [finally] of the inner block
    clears the owner of [d] and signals the permit of the outer block: the
    registry is as it was before the outer block, with [d] unowned.  The
    [finally] of the outer block then releases the unowned [d], and that is
    not a no-op: it signals a permit that nobody took.  When no other thread
    holds a device the semaphore is at its bound and the release raises
    ValueError, so the outer block fails although its body returned;
    otherwise the block returns with one permit more than before it, and the
    permits outnumber the free devices. *)
Theorem nested_reserve_releases_unowned (timeout timeout' : option Z) (t : thread_id)
    (c c1 : ModelCache) (d : torch_device) :
  NoDup (_execution_devices c).*1 →
  devices_of t (_execution_devices c) = [] →
  0 < sem_value (_free_execution_device c) ≤ sem_initial (_free_execution_device c) →
  reserve_enter timeout t c = Returns d c1 →
  dict_get d (_execution_devices c) = Some 0
  ∧ reserve_execution_device timeout' t (fun d' c2 => Returns d' c2) c1 = Returns d c
  ∧ reserve_exit d c
    = (if decide (sem_value (_free_execution_device c)
                  = sem_initial (_free_execution_device c))
       then Raises ValueError c
       else Returns ()
              (set_free_execution_device
                 {| sem_value := sem_value (_free_execution_device c) + 1;
                    sem_initial := sem_initial (_free_execution_device c) |} c))
  ∧ reserve_execution_device timeout t
      (fun _ c1 => reserve_execution_device timeout' t (fun d' c2 => Returns d' c2) c1) c
    = (if decide (sem_value (_free_execution_device c)
                  = sem_initial (_free_execution_device c))
       then Raises ValueError c
       else Returns d
              (set_free_execution_device
                 {| sem_value := sem_value (_free_execution_device c) + 1;
                    sem_initial := sem_initial (_free_execution_device c) |} c)).
Proof.
  intros Hnd Hmine Hsem Henter.
  destruct (reserve_enter_fresh_facts _ _ _ _ _ Hnd Hmine Henter)
    as (Hfree & _ & _ & _ & _).
  destruct (reserve_enter_owns _ _ _ _ _ Henter) as [ds Hown].
  destruct (reserve_enter_fresh _ _ _ _ _ Hmine Henter)
    as (frees & sem & _ & Hc1 & [[_ ->] | [Hnone _]]); [| lia].
  assert (set_execution_devices (dict_set d 0 (_execution_devices c)) c = c) as Hsame.
  { unfold thread_id, torch_device in *. rewrite (dict_set_id _ _ _ Hfree). by destruct c. }
  assert (reserve_exit d c1 = Returns () c) as Hinner.
  { unfold reserve_exit, release. rewrite Hc1. simpl.
    rewrite decide_False by lia. rewrite dict_set_set.
    unfold thread_id, torch_device in *. rewrite (dict_set_id _ _ _ Hfree).
    replace (sem_value (_free_execution_device c) - 1 + 1)
      with (sem_value (_free_execution_device c)) by lia.
    destruct c as [? ? ? ? ? ? [? ?] ? ?]. done. }
  assert (reserve_execution_device timeout' t (fun d' c2 => Returns d' c2) c1 = Returns d c)
    as Hblock.
  { unfold reserve_execution_device.
    rewrite (reserve_enter_owned _ _ _ _ _ Hown). simpl. by rewrite Hinner. }
  assert (reserve_exit d c
          = (if decide (sem_value (_free_execution_device c)
                        = sem_initial (_free_execution_device c))
             then Raises ValueError c
             else Returns ()
                    (set_free_execution_device
                       {| sem_value := sem_value (_free_execution_device c) + 1;
                          sem_initial := sem_initial (_free_execution_device c) |} c)))
    as Houter.
  { case_decide as Hfull.
    - rewrite reserve_exit_at_bound by lia. by rewrite Hsame.
    - unfold reserve_exit, release. rewrite Hsame. by rewrite decide_False by lia. }
  split; [done |]. split; [done |]. split; [done |].
  unfold reserve_execution_device at 1. rewrite Henter. simpl. rewrite Hblock, Houter.
  by case_decide.
Qed.

Lemma nested_reserve_releases_unowned_witness :
  (dict_get "cuda:0" (_execution_devices cache0) = Some 0
   ∧ reserve_execution_device (Some 5) 1 (fun d' c2 => Returns d' c2) cache_one_reserved
     = Returns "cuda:0" cache0
   ∧ reserve_exit "cuda:0" cache0 = Raises ValueError cache0
   ∧ reserve_execution_device None 1
       (fun _ c1 => reserve_execution_device (Some 5) 1 (fun d' c2 => Returns d' c2) c1)
       cache0
     = Raises ValueError cache0)
  ∧ (dict_get "cuda:0" (_execution_devices cache_one_released) = Some 0
     ∧ sem_value (_free_execution_device cache_one_released) = 1
     ∧ devices_of 0 (_execution_devices cache_one_released) = ["cuda:0"]
     ∧ reserve_execution_device None 1
         (fun _ c1 => reserve_execution_device None 1 (fun d' c2 => Returns d' c2) c1)
         cache_one_released
       = Returns "cuda:0"
           (set_free_execution_device {| sem_value := 2; sem_initial := 2 |}
              cache_one_released)).
Proof.
  split.
  - apply (nested_reserve_releases_unowned None (Some 5) 1 cache0 cache_one_reserved
             "cuda:0"); try reflexivity; try done.
    by apply (bool_decide_unpack _).
  - split; [reflexivity |]. split; [reflexivity |]. split; [reflexivity |].
    apply (nested_reserve_releases_unowned None None 1 cache_one_released
             (state_of cache0 (reserve_enter None 1 cache_one_released)) "cuda:0");
      try reflexivity; try done.
    by apply (bool_decide_unpack _).
Defined.

(** ** A new cache *)

Lemma dict_set_unowned d (table : list (torch_device * thread_id)) :
  Forall (fun p => p.2 = 0) table → Forall (fun p => p.2 = 0) (dict_set d 0 table).
Proof.
  induction table as [| [d' owner] table IH]; simpl.
  - intros _. by repeat constructor.
  - intros [Hhd Htl]%Forall_cons. destruct (decide (d = d')); constructor; auto.
Qed.

Lemma init_table (devices : list torch_device) (acc : list (torch_device * thread_id)) :
  NoDup acc.*1 → Forall (fun p => p.2 = 0) acc →
  NoDup (foldl (fun d x => dict_set x 0 d) acc devices).*1
  ∧ Forall (fun p => p.2 = 0) (foldl (fun d x => dict_set x 0 d) acc devices)
  ∧ ∀ x, x ∈ (foldl (fun d x => dict_set x 0 d) acc devices).*1
         ↔ x ∈ acc.*1 ∨ x ∈ devices.
Proof.
  revert acc. induction devices as [| dev devices IH]; intros acc Hnd Hall; simpl.
  - split; [done |]. split; [done |]. intros x. split; [by left |].
    by intros [? | ?%elem_of_nil].
  - destruct (IH (dict_set dev 0 acc)) as (Hnd' & Hall' & Hkeys).
    { by apply dict_set_NoDup. }
    { by apply dict_set_unowned. }
    split; [done |]. split; [done |]. intros x. rewrite Hkeys, dict_set_keys.
    rewrite (elem_of_cons devices). destruct (decide (dev ∈ acc.*1)) as [Hin | Hnotin].
    + rewrite decide_True by done. split; [tauto |]. intros [? | [-> | ?]]; auto.
    + rewrite decide_False by done. rewrite elem_of_app, list_elem_of_singleton. tauto.
Qed.

Lemma devices_of_unowned t (table : list (torch_device * thread_id)) :
  Forall (fun p => p.2 = 0) table →
  devices_of 0 table = table.*1 ∧ (t ≠ 0 → devices_of t table = []).
Proof.
  induction table as [| [d owner] table IH]; [done |].
  intros [Hhd Htl]%Forall_cons. simpl in Hhd. subst owner.
  destruct (IH Htl) as [Hfree Hnone]. rewrite !devices_of_cons.
  rewrite decide_True by done. split; [by rewrite Hfree |].
  intros Ht. rewrite decide_False by done. auto.
Qed.

Lemma unowned_cache_fresh c :
  NoDup (_execution_devices c).*1 →
  Forall (fun p => p.2 = 0) (_execution_devices c) →
  _free_execution_device c
  = {| sem_value := Z.of_nat (length (_execution_devices c));
       sem_initial := Z.of_nat (length (_execution_devices c)) |} →
  _cached_models c = ∅ →
  _cache_stack c = [] →
  devices_wf c
  ∧ cache_wf c
  ∧ devices_of 0 (_execution_devices c) = (_execution_devices c).*1
  ∧ sem_value (_free_execution_device c) = Z.of_nat (length (_execution_devices c))
  ∧ (∀ t, t ≠ 0 → get_execution_device t c = Raises ValueError c)
  ∧ (∀ k tag, exists_ k tag c = false)
  ∧ cache_size c = 0.
Proof.
  intros Hnd Hall Hsem Hstore Hstack.
  destruct (devices_of_unowned 0 _ Hall) as [Hfree _].
  split.
  { unfold devices_wf. rewrite Hsem, Hfree, length_fmap. simpl.
    repeat split; (done || lia). }
  split.
  { split.
    - intros k rid. rewrite Hstore. by rewrite lookup_empty.
    - unfold stack_wf. rewrite Hstack. split; [constructor | by intros k ?%elem_of_nil]. }
  split; [done |]. split; [by rewrite Hsem |]. split.
  { intros t Ht. unfold get_execution_device.
    destruct (devices_of_unowned t _ Hall) as [_ Hnone]. by rewrite Hnone. }
  split.
  - intros k tag. unfold exists_. apply bool_decide_eq_false.
    rewrite Hstore, lookup_empty. by intros [? ?].
  - unfold cache_size. by rewrite Hstore, map_to_list_empty.
Qed.

(** X10: a new cache.  Its device table lists exactly the enumerated
    devices, each once and unowned, with one permit per device; no thread has
    a device, so [get_execution_device] raises ValueError; and the store is
    empty: no key exists and the cache size is 0. *)
Theorem ModelCache_init_fresh (max_cache_size : Q) (precision : string)
    (devices : list torch_device) :
  let c := ModelCache_init max_cache_size precision devices in
  (∀ x, x ∈ (_execution_devices c).*1 ↔ x ∈ devices)
  ∧ devices_wf c
  ∧ cache_wf c
  ∧ devices_of 0 (_execution_devices c) = (_execution_devices c).*1
  ∧ sem_value (_free_execution_device c) = Z.of_nat (length (_execution_devices c))
  ∧ (∀ t, t ≠ 0 → get_execution_device t c = Raises ValueError c)
  ∧ (∀ k tag, exists_ k tag c = false)
  ∧ cache_size c = 0.
Proof.
  intros c.
  destruct (init_table devices []) as (Hnd & Hall & Hkeys); [constructor | constructor |].
  split.
  - intros x. etransitivity; [apply Hkeys |]. split; [| by right].
    by intros [?%elem_of_nil | ?].
  - by apply unowned_cache_fresh.
Qed.

(** ** Well-formed caches: the store and the recency list *)

Lemma list_remove_first_None k (l : list string) :
  list_remove_first k l = None → k ∉ l.
Proof.
  induction l as [| y l IH]; [intros _ ?%elem_of_nil; done |]. cbn [list_remove_first].
  destruct (decide (k = y)); [done |].
  destruct (list_remove_first k l); [done |]. intros _ [? | ?]%elem_of_cons; [done |].
  by apply IH.
Qed.

Lemma filter_absent k (l : list string) :
  k ∉ l → filter (fun x => x ≠ k) l = l.
Proof.
  induction l as [| y l IH]; [done |]. intros [Hne Hnotin]%not_elem_of_cons.
  rewrite filter_cons_True by done. by rewrite IH.
Qed.

(** On a list without repetition, [list.remove(k)] with the exception
    suppressed keeps every other key, in order. *)
Lemma list_remove_first_filter k (l : list string) :
  NoDup l → default l (list_remove_first k l) = filter (fun x => x ≠ k) l.
Proof.
  induction l as [| y l IH]; [done |]. intros [Hfresh Hnd]%NoDup_cons.
  cbn [list_remove_first]. destruct (decide (k = y)) as [-> | Hne].
  - rewrite filter_cons_False by (intros Hyy; by apply Hyy).
    simpl. by rewrite filter_absent.
  - rewrite filter_cons_True by done. specialize (IH Hnd).
    destruct (list_remove_first k l); simpl in *; by f_equal.
Qed.

Lemma lookup_record_wf k c :
  store_wf c → is_Some (_cached_models c !! k) →
  ∃ r, lookup_record k c = Some r ∧ key r = k.
Proof.
  intros Hstore [rid Hrid]. destruct (Hstore k rid Hrid) as (r & Hr & Hkey).
  exists r. unfold lookup_record. rewrite Hrid. by simpl.
Qed.

(** What [make_room] does on a well-formed cache. *)
Lemma make_room_wf sz c :
  cache_wf c →
  make_room sz c
  = if over_budget (cache_size c) sz (_max_cache_size c * inject_Z GIG)%Q then
      match _cache_stack c with
      | [] => Raises IndexError c
      | k :: stack => Raises ValueError (set_cache_stack stack c)
      end
    else Returns () c.
Proof.
  intros [Hstore [Hnd Hsub]].
  destruct (over_budget _ _ _) eqn:Hover; [| by apply make_room_fits].
  destruct (_cache_stack c) as [| k stack] eqn:Hstack.
  - unfold make_room. cbn [make_room_loop]. by rewrite Hover, Hstack.
  - apply NoDup_cons in Hnd as [Hfresh _].
    destruct (lookup_record_wf k c Hstore) as (r & Hr & Hkey).
    { apply Hsub. apply elem_of_cons. by left. }
    by apply (make_room_eviction_raises sz c k stack r).
Qed.

(** X11: on a well-formed cache [make_room] never evicts.  When the request
    fits it changes nothing; when it does not fit it raises, IndexError on an
    empty recency list and ValueError otherwise, after taking the head key
    off the recency list.  In every case each stored record stays stored. *)
Theorem make_room_never_evicts (sz : Z) (c : ModelCache) :
  cache_wf c →
  _cached_models (state_of c (make_room sz c)) = _cached_models c
  ∧ records (state_of c (make_room sz c)) = records c
  ∧ (over_budget (cache_size c) sz (_max_cache_size c * inject_Z GIG)%Q = false →
       make_room sz c = Returns () c)
  ∧ (over_budget (cache_size c) sz (_max_cache_size c * inject_Z GIG)%Q = true →
       (_cache_stack c = [] ∧ make_room sz c = Raises IndexError c)
       ∨ ∃ k stack, _cache_stack c = k :: stack
                    ∧ make_room sz c = Raises ValueError (set_cache_stack stack c)).
Proof.
  intros Hwf. rewrite (make_room_wf sz c Hwf).
  destruct (over_budget _ _ _); [| by repeat split].
  destruct (_cache_stack c) as [| k stack] eqn:Hstack.
  - repeat split; try done. intros _. by left.
  - repeat split; try done. intros _. right. by exists k, stack.
Qed.

Lemma stack_wf_tail k stack c :
  _cache_stack c = k :: stack → cache_wf c → cache_wf (set_cache_stack stack c).
Proof.
  intros Hstack [Hstore [Hnd Hsub]]. split; [done |]. unfold stack_wf. simpl.
  rewrite Hstack in Hnd, Hsub. apply NoDup_cons in Hnd as [_ Hnd].
  split; [done |]. intros x Hx. apply Hsub. apply elem_of_cons. by right.
Qed.

Lemma stored_wf k r c :
  cache_wf c → _cached_models c !! k = None → key r = k → cache_wf (stored k r c).
Proof.
  intros [Hstore [Hnd Hsub]] Habsent Hkey. split.
  - intros k0 rid. simpl. destruct (decide (k = k0)) as [<- | Hne].
    + rewrite lookup_insert_eq. intros [= <-]. exists r.
      split; [| done]. rewrite lookup_app_r by done. by rewrite Nat.sub_diag.
    + rewrite lookup_insert_ne by done. intros Hk0.
      destruct (Hstore k0 rid Hk0) as (r0 & Hr0 & Hkey0).
      exists r0. split; [by apply lookup_app_l_Some | done].
  - unfold stack_wf. simpl. split.
    + apply NoDup_app. split; [done |]. split; [| apply NoDup_singleton].
      intros x Hx ->%list_elem_of_singleton.
      destruct (Hsub _ Hx) as [rid Hrid]. congruence.
    + intros x [Hx | ->%list_elem_of_singleton]%elem_of_app.
      * apply lookup_insert_is_Some. destruct (decide (k = x)); [by left | right].
        split; [done | by apply Hsub].
      * rewrite lookup_insert_eq. by eexists.
Qed.

Lemma put_absent_fits k model tag c :
  _cached_models c !! _make_cache_key k tag = None →
  over_budget (cache_size c) (nbytes model) (_max_cache_size c * inject_Z GIG)%Q = false →
  put k model tag c
  = Returns () (stored (_make_cache_key k tag)
                  (record_for (_make_cache_key k tag) model c) c).
Proof.
  intros Habsent Hfits. unfold put. rewrite decide_False.
  - by rewrite make_room_fits.
  - rewrite Habsent. by intros [? ?].
Qed.

Lemma record_for_key k model c : key (record_for k model c) = k.
Proof. unfold record_for. by destruct (is_nn_module model). Qed.

Lemma put_wf k model tag c : cache_wf c → cache_wf (state_of c (put k model tag c)).
Proof.
  intros Hwf.
  destruct (_cached_models c !! _make_cache_key k tag) as [rid |] eqn:Hk.
  { rewrite put_present; [done | by eexists]. }
  destruct (over_budget (cache_size c) (nbytes model)
              (_max_cache_size c * inject_Z GIG)%Q) eqn:Hover.
  - unfold put. rewrite decide_False by (rewrite Hk; by intros [? ?]).
    rewrite (make_room_wf _ _ Hwf), Hover.
    destruct (_cache_stack c) as [| k0 stack] eqn:Hstack; simpl; [done |].
    by apply (stack_wf_tail k0).
  - rewrite put_absent_fits by done. simpl.
    apply stored_wf; [done | done | apply record_for_key].
Qed.

Lemma set_stats_wf st c : cache_wf c → cache_wf (set_stats st c).
Proof. by intros [Hstore Hstack]. Qed.

Lemma get_wf k tag stats_name c :
  cache_wf c → cache_wf (state_of c (get k tag stats_name c)).
Proof.
  intros Hwf. pose proof Hwf as [Hstore [Hnd Hsub]]. unfold get.
  destruct (_cached_models c !! _make_cache_key k tag) as [rid |] eqn:Hk.
  2: { simpl. by apply set_stats_wf. }
  destruct (Hstore _ _ Hk) as (r & Hr & Hkey). simpl. rewrite Hr. simpl.
  split; [done |]. unfold stack_wf. simpl.
  rewrite list_remove_first_filter by done. split.
  - apply NoDup_app. split; [by apply NoDup_filter |]. split; [| apply NoDup_singleton].
    intros x [Hne _]%list_elem_of_filter ->%list_elem_of_singleton. done.
  - intros x [[_ Hx]%list_elem_of_filter | ->%list_elem_of_singleton]%elem_of_app.
    + by apply Hsub.
    + by eexists.
Qed.

Lemma cache0_wf : cache_wf cache0.
Proof.
  split; [by intros k rid Hk |].
  split; [constructor | by intros k ?%elem_of_nil].
Qed.

Lemma cache_A_wf : cache_wf cache_A.
Proof. apply (put_wf "A" model_A None cache0), cache0_wf. Qed.

Lemma cache_AB_wf : cache_wf cache_AB.
Proof. apply (put_wf "B" model_B None cache_A), cache_A_wf. Qed.

Lemma make_room_never_evicts_witness :
  _cached_models (state_of cache_AB (make_room 40 cache_AB)) = _cached_models cache_AB
  ∧ records (state_of cache_AB (make_room 40 cache_AB)) = records cache_AB
  ∧ (over_budget (cache_size cache_AB) 40
       (_max_cache_size cache_AB * inject_Z GIG)%Q = false →
       make_room 40 cache_AB = Returns () cache_AB)
  ∧ (over_budget (cache_size cache_AB) 40
       (_max_cache_size cache_AB * inject_Z GIG)%Q = true →
       (_cache_stack cache_AB = [] ∧ make_room 40 cache_AB = Raises IndexError cache_AB)
       ∨ ∃ k stack, _cache_stack cache_AB = k :: stack
                    ∧ make_room 40 cache_AB
                      = Raises ValueError (set_cache_stack stack cache_AB)).
Proof. apply (make_room_never_evicts 40 cache_AB), cache_AB_wf. Defined.




(** X12: well-formedness is kept by every [put], whether it stores the
    model, finds the key present or raises: afterwards every stored key still
    points to a record that carries that key, and the recency list repeats no
    key and lists stored keys only. *)
Theorem put_preserves_wf (k : string) (model : AnyModel) (tag : option SubModelType)
    (c : ModelCache) :
  cache_wf c → cache_wf (state_of c (put k model tag c)).
Proof. apply put_wf. Qed.

Lemma put_preserves_wf_witness : cache_wf (state_of cache_AB (put "C" model_C None cache_AB)).
Proof. apply (put_preserves_wf "C" model_C None cache_AB), cache_AB_wf. Defined.

(** X13: well-formedness is kept by every [get], hit or miss. *)
Theorem get_preserves_wf (k : string) (tag : option SubModelType)
    (stats_name : option string) (c : ModelCache) :
  cache_wf c → cache_wf (state_of c (get k tag stats_name c)).
Proof. apply get_wf. Qed.

Lemma get_preserves_wf_witness : cache_wf (state_of cache_AB (get "A" None None cache_AB)).
Proof. apply (get_preserves_wf "A" None None cache_AB), cache_AB_wf. Defined.

(** ** The size of the cache *)

Lemma sizes_permutation (rs : list CacheRecord) (l l' : list (string * nat)) :
  l ≡ₚ l' →
  foldr (fun kv total => total + size_at rs kv.2) 0 l
  = foldr (fun kv total => total + size_at rs kv.2) 0 l'.
Proof. induction 1; simpl; lia. Qed.

Lemma sizes_allocated (rs : list CacheRecord) r (l : list (string * nat)) :
  Forall (fun kv => is_Some (rs !! kv.2)) l →
  foldr (fun kv total => total + size_at (rs ++ [r]) kv.2) 0 l
  = foldr (fun kv total => total + size_at rs kv.2) 0 l.
Proof.
  induction 1 as [| [k rid] l [r0 Hr0] _ IH]; [done |]. simpl in *. rewrite IH.
  unfold size_at. by rewrite (lookup_app_l_Some _ _ _ _ Hr0), Hr0.
Qed.

Lemma cache_size_stored k r c :
  store_wf c → _cached_models c !! k = None →
  cache_size (stored k r c) = cache_size c + size r.
Proof.
  intros Hstore Habsent. unfold cache_size. simpl.
  rewrite (sizes_permutation _ _ _ (map_to_list_insert _ _ _ Habsent)). simpl.
  rewrite sizes_allocated.
  - unfold size_at. rewrite lookup_app_r by done. by rewrite Nat.sub_diag.
  - apply Forall_forall. intros [k0 rid] Hin%elem_of_map_to_list. simpl.
    destruct (Hstore _ _ Hin) as (r0 & Hr0 & _). by eexists.
Qed.

Lemma lookup_record_stored k r c k' :
  store_wf c → _cached_models c !! k = None →
  lookup_record k' (stored k r c)
  = if decide (k' = k) then Some r else lookup_record k' c.
Proof.
  intros Hstore Habsent. unfold lookup_record. simpl. case_decide as Hk; subst.
  - rewrite lookup_insert_eq. simpl. rewrite lookup_app_r by done.
    by rewrite Nat.sub_diag.
  - rewrite lookup_insert_ne by done.
    destruct (_cached_models c !! k') as [rid |] eqn:Hrid; [| done]. simpl.
    destruct (Hstore _ _ Hrid) as (r0 & Hr0 & _).
    by rewrite (lookup_app_l_Some _ _ _ _ Hr0).
Qed.

(** X14: a [put] under a key that is not stored, of a model that fits the
    budget, returns; afterwards the key leads to a new record with that key,
    the size reported for the model, no lock and nothing loaded, every other
    key leads where it led before, the key is the last of the recency list,
    the cache size has grown by the size of the model and no model object
    was touched. *)
Theorem put_stores_new_record (k : string) (model : AnyModel)
    (tag : option SubModelType) (c : ModelCache) :
  cache_wf c →
  exists_ k tag c = false →
  over_budget (cache_size c) (nbytes model) (_max_cache_size c * inject_Z GIG)%Q = false →
  ∃ c' r,
    put k model tag c = Returns () c'
    ∧ lookup_record (_make_cache_key k tag) c' = Some r
    ∧ key r = _make_cache_key k tag
    ∧ size r = nbytes model
    ∧ active_locks r = 0
    ∧ loaded r = false
    ∧ body r = (if is_nn_module model
                then OwnsConfig (model_config model) (state_dict_of model c)
                       (model_class model)
                else OwnsModel model)
    ∧ (∀ k', k' ≠ _make_cache_key k tag → lookup_record k' c' = lookup_record k' c)
    ∧ _cache_stack c' = _cache_stack c ++ [_make_cache_key k tag]
    ∧ cache_size c' = cache_size c + nbytes model
    ∧ objects c' = objects c.
Proof.
  intros [Hstore Hstack] Habsent Hfits.
  apply bool_decide_eq_false in Habsent. rewrite <- eq_None_not_Some in Habsent.
  eexists _, (record_for (_make_cache_key k tag) model c).
  split; [by apply put_absent_fits |].
  split; [rewrite lookup_record_stored by done; by rewrite decide_True |].
  split; [apply record_for_key |].
  split; [unfold record_for; by destruct (is_nn_module model) |].
  split; [unfold record_for; by destruct (is_nn_module model) |].
  split; [unfold record_for; by destruct (is_nn_module model) |].
  split; [unfold record_for; by destruct (is_nn_module model) |].
  split; [intros k' Hne; rewrite lookup_record_stored by done; by rewrite decide_False |].
  split; [done |]. split; [| done].
  rewrite cache_size_stored by done. f_equal.
  unfold record_for; by destruct (is_nn_module model).
Qed.

Lemma put_stores_new_record_witness :
  ∃ c' r,
    put "B" model_B None cache_A = Returns () c'
    ∧ lookup_record (_make_cache_key "B" None) c' = Some r
    ∧ key r = _make_cache_key "B" None
    ∧ size r = nbytes model_B
    ∧ active_locks r = 0
    ∧ loaded r = false
    ∧ body r = (if is_nn_module model_B
                then OwnsConfig (model_config model_B) (state_dict_of model_B cache_A)
                       (model_class model_B)
                else OwnsModel model_B)
    ∧ (∀ k', k' ≠ _make_cache_key "B" None → lookup_record k' c' = lookup_record k' cache_A)
    ∧ _cache_stack c' = _cache_stack cache_A ++ [_make_cache_key "B" None]
    ∧ cache_size c' = cache_size cache_A + nbytes model_B
    ∧ objects c' = objects cache_A.
Proof.
  apply (put_stores_new_record "B" model_B None cache_A);
    [apply cache_A_wf | reflexivity | reflexivity].
Defined.

Lemma over_budget_false current_size bytes_needed maximum_size :
  over_budget current_size bytes_needed maximum_size = false
  ↔ (inject_Z (current_size + bytes_needed) <= maximum_size)%Q.
Proof.
  unfold over_budget. rewrite negb_false_iff. apply Qle_bool_iff.
Qed.

(** X15: [put] keeps the cache within its budget.  On a well-formed cache
    that holds no more than its budget, a [put] that returns leaves a cache
    that holds no more than its budget. *)
Theorem put_within_budget (k : string) (model : AnyModel) (tag : option SubModelType)
    (c c' : ModelCache) :
  cache_wf c → within_budget c →
  put k model tag c = Returns () c' →
  within_budget c' ∧ _max_cache_size c' = _max_cache_size c.
Proof.
  intros Hwf Hwithin Hput. pose proof Hwf as [Hstore _].
  destruct (_cached_models c !! _make_cache_key k tag) as [rid |] eqn:Hk.
  { rewrite put_present in Hput by by eexists. by injection Hput as <-. }
  destruct (over_budget (cache_size c) (nbytes model)
              (_max_cache_size c * inject_Z GIG)%Q) eqn:Hover.
  - unfold put in Hput. rewrite decide_False in Hput by (rewrite Hk; by intros [? ?]).
    rewrite (make_room_wf _ _ Hwf), Hover in Hput.
    by destruct (_cache_stack c).
  - rewrite put_absent_fits in Hput by done. injection Hput as <-.
    split; [| done]. unfold within_budget.
    rewrite cache_size_stored by done.
    replace (size (record_for (_make_cache_key k tag) model c)) with (nbytes model)
      by (unfold record_for; by destruct (is_nn_module model)).
    by apply over_budget_false.
Qed.

Lemma put_within_budget_witness :
  within_budget cache_AB ∧ _max_cache_size cache_AB = _max_cache_size cache_A.
Proof.
  apply (put_within_budget "B" model_B None cache_A cache_AB);
    [apply cache_A_wf | | reflexivity].
  unfold within_budget. by apply Qle_bool_iff.
Defined.

(** X16: on a well-formed cache, a [put] of a new key that does not fit the
    budget always fails and stores nothing.  It raises IndexError when the
    recency list is empty and ValueError otherwise; no record is evicted or
    added; all that changes is the recency list, which loses its head. *)
Theorem put_over_budget_raises (k : string) (model : AnyModel)
    (tag : option SubModelType) (c : ModelCache) :
  cache_wf c →
  exists_ k tag c = false →
  over_budget (cache_size c) (nbytes model) (_max_cache_size c * inject_Z GIG)%Q = true →
  ∃ e, put k model tag c = Raises e (set_cache_stack (tail (_cache_stack c)) c)
       ∧ e = (if decide (_cache_stack c = []) then IndexError else ValueError)
       ∧ exists_ k tag (state_of c (put k model tag c)) = false
       ∧ _cached_models (state_of c (put k model tag c)) = _cached_models c.
Proof.
  intros Hwf Habsent Hover. pose proof Habsent as Hk.
  apply bool_decide_eq_false in Hk.
  unfold put. rewrite decide_False by done.
  rewrite (make_room_wf _ _ Hwf), Hover.
  destruct (_cache_stack c) as [| k0 stack] eqn:Hstack; simpl.
  - exists IndexError. split; [| done]. f_equal. destruct c; simpl in *. by subst.
  - by exists ValueError.
Qed.

Lemma put_over_budget_raises_witness :
  ∃ e, put "C" model_C None cache_AB
       = Raises e (set_cache_stack (tail (_cache_stack cache_AB)) cache_AB)
       ∧ e = (if decide (_cache_stack cache_AB = []) then IndexError else ValueError)
       ∧ exists_ "C" None (state_of cache_AB (put "C" model_C None cache_AB)) = false
       ∧ _cached_models (state_of cache_AB (put "C" model_C None cache_AB))
         = _cached_models cache_AB.
Proof.
  apply (put_over_budget_raises "C" model_C None cache_AB);
    [apply cache_AB_wf | reflexivity | reflexivity].
Defined.

(** ** get *)

(** X17: a hit.  On a well-formed cache, [get] of a stored key returns a
    handle on the record stored under that key and makes the key the most
    recently used: the recency list becomes its other keys, in their order,
    followed by the key.  The store, the records and the model objects are
    unchanged: [get] moves no model. *)
Theorem get_hit_moves_key_last (k : string) (tag : option SubModelType)
    (stats_name : option string) (c : ModelCache) :
  cache_wf c →
  exists_ k tag c = true →
  ∃ rid c',
    get k tag stats_name c = Returns {| _cache_entry := rid |} c'
    ∧ _cached_models c !! _make_cache_key k tag = Some rid
    ∧ records c' !! rid = lookup_record (_make_cache_key k tag) c
    ∧ _cache_stack c'
      = filter (fun x => x ≠ _make_cache_key k tag) (_cache_stack c)
        ++ [_make_cache_key k tag]
    ∧ last (_cache_stack c') = Some (_make_cache_key k tag)
    ∧ _cached_models c' = _cached_models c
    ∧ records c' = records c
    ∧ objects c' = objects c.
Proof.
  intros [Hstore [Hnd Hsub]] [rid Hrid]%exists_spec.
  destruct (Hstore _ _ Hrid) as (r & Hr & Hkey).
  exists rid. unfold get. rewrite Hrid. simpl. rewrite Hr. simpl.
  eexists. split; [done |]. simpl. rewrite list_remove_first_filter by done.
  split; [done |]. split; [unfold lookup_record; by rewrite Hrid |].
  split; [done |]. split; [apply last_snoc | done].
Qed.

Lemma get_hit_moves_key_last_witness :
  ∃ rid c',
    get "A" None None cache_AB = Returns {| _cache_entry := rid |} c'
    ∧ _cached_models cache_AB !! _make_cache_key "A" None = Some rid
    ∧ records c' !! rid = lookup_record (_make_cache_key "A" None) cache_AB
    ∧ _cache_stack c'
      = filter (fun x => x ≠ _make_cache_key "A" None) (_cache_stack cache_AB)
        ++ [_make_cache_key "A" None]
    ∧ last (_cache_stack c') = Some (_make_cache_key "A" None)
    ∧ _cached_models c' = _cached_models cache_AB
    ∧ records c' = records cache_AB
    ∧ objects c' = objects cache_AB.
Proof.
  apply (get_hit_moves_key_last "A" None None cache_AB); [apply cache_AB_wf | reflexivity].
Defined.

(** X18: the statistics of a hit.  With a stats block attached, a hit adds
    one to [hits] and leaves [misses] and [cleared] alone; [in_cache] is the
    number of stored keys, [cache_size] the budget in whole bytes,
    [high_watermark] never decreases and is at least the current cache size,
    and the size recorded under the stats name never decreases and is at
    least the size of the record.  The stats name is the canonical key when
    none, or an empty one, is given. *)
Theorem get_hit_stats (k : string) (tag : option SubModelType)
    (stats_name : option string) (c : ModelCache) (rid : nat) (r : CacheRecord)
    (st : CacheStats) :
  _cached_models c !! _make_cache_key k tag = Some rid →
  records c !! rid = Some r →
  _stats c = Some st →
  ∃ st' name,
    _stats (state_of c (get k tag stats_name c)) = Some st'
    ∧ name = match stats_name with
             | Some n => if decide (n = "") then _make_cache_key k tag else n
             | None => _make_cache_key k tag
             end
    ∧ hits st' = hits st + 1
    ∧ misses st' = misses st
    ∧ cleared st' = cleared st
    ∧ in_cache st' = Z.of_nat (base.size (_cached_models c))
    ∧ cache_size_stat st' = int_of (_max_cache_size c * inject_Z GIG)%Q
    ∧ high_watermark st ≤ high_watermark st'
    ∧ cache_size c ≤ high_watermark st'
    ∧ (∃ n, dict_get name (loaded_model_sizes st') = Some n
            ∧ size r ≤ n
            ∧ default 0 (dict_get name (loaded_model_sizes st)) ≤ n)
    ∧ (∀ other, other ≠ name →
         dict_get other (loaded_model_sizes st') = dict_get other (loaded_model_sizes st)).
Proof.
  intros Hrid Hr Hst. unfold get. rewrite Hrid. simpl. rewrite Hr. simpl. rewrite Hst.
  simpl. eexists _, _. split; [done |]. split; [done |]. simpl.
  change (cache_size (set_stats (Some (add_hit st)) c)) with (cache_size c).
  repeat (split; [done || lia |]).
  split.
  - eexists. split; [apply dict_get_set_eq |]. lia.
  - intros other Hne. by apply dict_get_set_ne.
Qed.

Lemma get_hit_stats_witness :
  ∃ st' name,
    _stats (state_of cache_AB (get "A" None (Some "") cache_AB)) = Some st'
    ∧ name = match Some "" with
             | Some n => if decide (n = "") then _make_cache_key "A" None else n
             | None => _make_cache_key "A" None
             end
    ∧ hits st' = hits CacheStats_new + 1
    ∧ misses st' = misses CacheStats_new
    ∧ cleared st' = cleared CacheStats_new
    ∧ in_cache st' = Z.of_nat (base.size (_cached_models cache_AB))
    ∧ cache_size_stat st' = int_of (_max_cache_size cache_AB * inject_Z GIG)%Q
    ∧ high_watermark CacheStats_new ≤ high_watermark st'
    ∧ cache_size cache_AB ≤ high_watermark st'
    ∧ (∃ n, dict_get name (loaded_model_sizes st') = Some n
            ∧ size (ModelCacheRecord "A" model_A 40) ≤ n
            ∧ default 0 (dict_get name (loaded_model_sizes CacheStats_new)) ≤ n)
    ∧ (∀ other, other ≠ name →
         dict_get other (loaded_model_sizes st')
         = dict_get other (loaded_model_sizes CacheStats_new)).
Proof.
  apply (get_hit_stats "A" None (Some "") cache_AB 0%nat (ModelCacheRecord "A" model_A 40)
           CacheStats_new); reflexivity.
Defined.

(** ** put and get together *)

Lemma get_stored k tag stats_name c rid r :
  _cached_models c !! _make_cache_key k tag = Some rid →
  records c !! rid = Some r →
  ∃ c', get k tag stats_name c = Returns {| _cache_entry := rid |} c'
        ∧ records c' = records c ∧ _cached_models c' = _cached_models c.
Proof.
  intros Hrid Hr. unfold get. rewrite Hrid. simpl. rewrite Hr. by eexists.
Qed.

(** X19: what was put can be got.  On a well-formed cache, after a [put]
    that returned, [get] with the same key and tag returns a handle, and the
    record behind the handle carries the canonical key; when the key was new,
    the record has the size reported for the model. *)
Theorem put_then_get (k : string) (model : AnyModel) (tag : option SubModelType)
    (stats_name : option string) (c c1 : ModelCache) :
  cache_wf c →
  put k model tag c = Returns () c1 →
  ∃ self c2 r,
    get k tag stats_name c1 = Returns self c2
    ∧ records c2 !! _cache_entry self = Some r
    ∧ key r = _make_cache_key k tag
    ∧ (exists_ k tag c = false → size r = nbytes model ∧ active_locks r = 0).
Proof.
  intros Hwf Hput.
  assert (cache_wf c1) as [Hstore1 _].
  { pose proof (put_wf k model tag c Hwf) as Hwf1. by rewrite Hput in Hwf1. }
  destruct (put_stores _ _ _ _ _ Hput) as [rid Hrid].
  destruct (Hstore1 _ _ Hrid) as (r & Hr & Hkey).
  destruct (get_stored k tag stats_name c1 rid r Hrid Hr) as (c2 & Hget & Hrecs & _).
  exists {| _cache_entry := rid |}, c2, r. split; [done |]. simpl.
  split; [by rewrite Hrecs |]. split; [done |].
  intros Habsent. apply bool_decide_eq_false in Habsent.
  rewrite <- eq_None_not_Some in Habsent.
  destruct (over_budget (cache_size c) (nbytes model)
              (_max_cache_size c * inject_Z GIG)%Q) eqn:Hover.
  - unfold put in Hput. rewrite decide_False in Hput by (rewrite Habsent; by intros [? ?]).
    rewrite (make_room_wf _ _ Hwf), Hover in Hput. by destruct (_cache_stack c).
  - rewrite put_absent_fits in Hput by done. injection Hput as <-.
    simpl in Hrid, Hr. rewrite lookup_insert_eq in Hrid. injection Hrid as <-.
    rewrite lookup_app_r, Nat.sub_diag in Hr by done. injection Hr as <-.
    unfold record_for. by destruct (is_nn_module model).
Qed.

Lemma put_then_get_witness :
  ∃ self c2 r,
    get "B" None None cache_AB = Returns self c2
    ∧ records c2 !! _cache_entry self = Some r
    ∧ key r = _make_cache_key "B" None
    ∧ (exists_ "B" None cache_A = false → size r = nbytes model_B ∧ active_locks r = 0).
Proof.
  apply (put_then_get "B" model_B None None cache_A cache_AB);
    [apply cache_A_wf | reflexivity].
Defined.

(** ** Sequences of calls *)

Lemma lookup_record_None k c : _cached_models c !! k = None → lookup_record k c = None.
Proof. intros Hk. unfold lookup_record. by rewrite Hk. Qed.

Lemma after_call_keeps call c :
  cache_wf c →
  cache_wf (after_call call c)
  ∧ (within_budget c → within_budget (after_call call c))
  ∧ (∀ k r, lookup_record k c = Some r → lookup_record k (after_call call c) = Some r).
Proof.
  intros Hwf. pose proof Hwf as [Hstore _].
  destruct call as [k model tag | k tag stats_name | timeout t | d]; simpl.
  - split; [by apply put_wf |].
    destruct (_cached_models c !! _make_cache_key k tag) as [rid |] eqn:Hk.
    { rewrite put_present by by eexists. by split. }
    destruct (over_budget (cache_size c) (nbytes model)
                (_max_cache_size c * inject_Z GIG)%Q) eqn:Hover.
    + unfold put. rewrite decide_False by (rewrite Hk; by intros [? ?]).
      rewrite (make_room_wf _ _ Hwf), Hover.
      by destruct (_cache_stack c).
    + rewrite put_absent_fits by done. simpl. split.
      * intros _. unfold within_budget. rewrite cache_size_stored by done.
        replace (size (record_for (_make_cache_key k tag) model c)) with (nbytes model)
          by (unfold record_for; by destruct (is_nn_module model)).
        by apply over_budget_false.
      * intros k' r' Hk'. rewrite lookup_record_stored by done.
        rewrite decide_False; [done |]. intros ->.
        by rewrite lookup_record_None in Hk'.
  - split; [by apply get_wf |]. unfold get.
    destruct (_cached_models c !! _make_cache_key k tag) as [rid |] eqn:Hk; [| done].
    simpl. by destruct (records c !! rid).
  - unfold reserve_enter.
    destruct (devices_of t (_execution_devices c)); [| done].
    destruct (acquire timeout (_free_execution_device c)) as [b sem | e sem |]; [| done ..].
    simpl. by destruct (devices_of 0 (_execution_devices c)).
  - unfold reserve_exit.
    by destruct (release _) as [[] sem | e sem |].
Qed.

Lemma after_calls_keep calls c :
  cache_wf c →
  cache_wf (after_calls calls c)
  ∧ (within_budget c → within_budget (after_calls calls c))
  ∧ (∀ k r, lookup_record k c = Some r → lookup_record k (after_calls calls c) = Some r).
Proof.
  revert c. induction calls as [| call calls IH]; intros c Hwf; [done |].
  destruct (after_call_keeps call c Hwf) as (Hwf1 & Hbudget1 & Hkeep1).
  destruct (IH _ Hwf1) as (Hwf2 & Hbudget2 & Hkeep2).
  split; [done |]. split; [auto |]. auto.
Qed.

(** X20: nothing is ever evicted.  Starting from a well-formed cache, after
    any sequence of [put], [get], device reservations and releases, whatever
    each of them returned or raised, the cache is well-formed, it is within
    its budget if it was, and every key that was stored still leads to the
    same record. *)
Theorem calls_never_evict (calls : list cache_call) (c : ModelCache) :
  cache_wf c →
  cache_wf (after_calls calls c)
  ∧ (within_budget c → within_budget (after_calls calls c))
  ∧ (∀ k r, lookup_record k c = Some r → lookup_record k (after_calls calls c) = Some r).
Proof. apply after_calls_keep. Qed.

Lemma calls_never_evict_witness :
  cache_wf (after_calls [CallPut "C" model_C None; CallGet "A" None None;
                         CallReserve None 1; CallPut "C" model_C None] cache_AB)
  ∧ (within_budget cache_AB →
       within_budget (after_calls [CallPut "C" model_C None; CallGet "A" None None;
                                   CallReserve None 1; CallPut "C" model_C None] cache_AB))
  ∧ (∀ k r, lookup_record k cache_AB = Some r →
       lookup_record k (after_calls [CallPut "C" model_C None; CallGet "A" None None;
                                     CallReserve None 1; CallPut "C" model_C None] cache_AB)
       = Some r).
Proof.
  apply (calls_never_evict [CallPut "C" model_C None; CallGet "A" None None;
                            CallReserve None 1; CallPut "C" model_C None] cache_AB).
  apply cache_AB_wf.
Defined.

Lemma make_room_loop_registry fuel sz maximum current_size cleared_so_far c :
  match make_room_loop fuel sz maximum current_size cleared_so_far c with
  | Returns _ c' | Raises _ c' =>
      _execution_devices c' = _execution_devices c
      ∧ _free_execution_device c' = _free_execution_device c
  | Hangs => True
  end.
Proof.
  revert current_size cleared_so_far c.
  induction fuel as [| fuel IH]; intros current_size cleared_so_far c;
    cbn [make_room_loop]; destruct (over_budget _ _ _); try done.
  destruct (_cache_stack c) as [| k0 stack]; [done |].
  destruct (lookup_record k0 _) as [cache_entry |]; [| done].
  unfold _delete_cache_entry. simpl.
  destruct (list_remove_first _ stack) as [stack' |]; [| done].
  destruct (_cached_models c !! key cache_entry); [| done]. simpl.
  apply (IH (current_size - size cache_entry) (cleared_so_far + 1)
           (set_cached_models (delete (key cache_entry) (_cached_models c))
              (set_cache_stack stack' (set_cache_stack stack c)))).
Qed.

Lemma put_registry k model tag c :
  _execution_devices (state_of c (put k model tag c)) = _execution_devices c
  ∧ _free_execution_device (state_of c (put k model tag c)) = _free_execution_device c.
Proof.
  unfold put. destruct (decide (is_Some _)); [done |].
  unfold make_room.
  pose proof (make_room_loop_registry (S (length (_cache_stack c))) (nbytes model)
                (_max_cache_size c * inject_Z GIG)%Q (cache_size c) 0 c) as Hloop.
  destruct (make_room_loop _ _ _ _ _ _) as [n0 c1 | e c1 |]; simpl in *; [| done ..].
  by case_decide.
Qed.

Lemma get_registry k tag stats_name c :
  _execution_devices (state_of c (get k tag stats_name c)) = _execution_devices c
  ∧ _free_execution_device (state_of c (get k tag stats_name c)) = _free_execution_device c.
Proof.
  unfold get. destruct (_cached_models c !! _) as [rid |]; [| done]. simpl.
  by destruct (records c !! rid).
Qed.

Lemma devices_wf_registry c c' :
  _execution_devices c' = _execution_devices c →
  _free_execution_device c' = _free_execution_device c →
  devices_wf c → devices_wf c'.
Proof. unfold devices_wf. by intros -> ->. Qed.

Lemma after_calls_registry calls c :
  devices_wf c →
  Forall (call_ok (_execution_devices c).*1) calls →
  devices_wf (after_calls calls c)
  ∧ (_execution_devices (after_calls calls c)).*1 = (_execution_devices c).*1.
Proof.
  revert c. induction calls as [| call calls IH]; intros c Hwf Hok; [done |].
  apply Forall_cons in Hok as [Hcall Hcalls]. simpl.
  assert (devices_wf (after_call call c)
          ∧ (_execution_devices (after_call call c)).*1 = (_execution_devices c).*1)
    as [Hwf1 Hkeys1].
  { destruct call as [k model tag | k tag stats_name | timeout t | d]; simpl in *.
    - destruct (put_registry k model tag c) as [Ht Hs].
      split; [by apply (devices_wf_registry c) | by rewrite Ht].
    - destruct (get_registry k tag stats_name c) as [Ht Hs].
      split; [by apply (devices_wf_registry c) | by rewrite Ht].
    - by apply reserve_enter_wf.
    - by apply reserve_exit_wf. }
  destruct (IH (after_call call c) Hwf1) as [Hwf2 Hkeys2]; [by rewrite Hkeys1 |].
  split; [done | by rewrite Hkeys2].
Qed.

(** X21: the registry invariant holds for ever.  After any sequence of [put],
    [get], reservations by real threads and releases of devices of the
    table, whatever each call returned or raised, the device table lists the
    same devices, each once, the semaphore is within its bounds and every
    unowned device is covered by a permit. *)
Theorem calls_keep_registry (calls : list cache_call) (c : ModelCache) :
  devices_wf c →
  Forall (call_ok (_execution_devices c).*1) calls →
  devices_wf (after_calls calls c)
  ∧ (_execution_devices (after_calls calls c)).*1 = (_execution_devices c).*1.
Proof. apply after_calls_registry. Qed.

Lemma cache0_devices_wf : devices_wf cache0.
Proof.
  split; [by apply (bool_decide_unpack _) |]. vm_compute. repeat split; discriminate.
Qed.

Lemma calls_keep_registry_witness :
  devices_wf (after_calls [CallReserve None 1; CallReserve (Some 5) 1;
                           CallRelease "cuda:0"; CallPut "A" model_A None;
                           CallRelease "cuda:0"; CallRelease "cuda:0"] cache0)
  ∧ (_execution_devices
       (after_calls [CallReserve None 1; CallReserve (Some 5) 1;
                     CallRelease "cuda:0"; CallPut "A" model_A None;
                     CallRelease "cuda:0"; CallRelease "cuda:0"] cache0)).*1
    = (_execution_devices cache0).*1.
Proof.
  apply (calls_keep_registry [CallReserve None 1; CallReserve (Some 5) 1;
                              CallRelease "cuda:0"; CallPut "A" model_A None;
                              CallRelease "cuda:0"; CallRelease "cuda:0"] cache0).
  - apply cache0_devices_wf.
  - repeat (apply Forall_cons; split); try apply Forall_nil; simpl; try done;
      by apply (bool_decide_unpack _).
Defined.

(** X22: [exists] tells whether [get] will succeed.  On a well-formed cache
    [get] returns a handle exactly when [exists] is true for the same key and
    tag, and raises IndexError exactly when it is false. *)
Theorem exists_iff_get_returns (k : string) (tag : option SubModelType)
    (stats_name : option string) (c : ModelCache) :
  cache_wf c →
  (exists_ k tag c = true ↔ ∃ self c', get k tag stats_name c = Returns self c')
  ∧ (exists_ k tag c = false ↔ ∃ c', get k tag stats_name c = Raises IndexError c').
Proof.
  intros [Hstore _].
  destruct (_cached_models c !! _make_cache_key k tag) as [rid |] eqn:Hk.
  - destruct (Hstore _ _ Hk) as (r & Hr & _).
    destruct (get_stored k tag stats_name c rid r Hk Hr) as (c' & Hget & _).
    assert (exists_ k tag c = true) as ->.
    { apply exists_spec. rewrite Hk. by eexists. }
    rewrite Hget. split.
    + split; [by eexists _, _ | done].
    + split; [done | by intros [c'' ?]].
  - assert (exists_ k tag c = false) as ->.
    { apply bool_decide_eq_false. rewrite Hk. by intros [? ?]. }
    unfold get. rewrite Hk. split.
    + split; [done | by intros (self & c' & ?)].
    + split; [by eexists | done].
Qed.

Lemma exists_iff_get_returns_witness :
  (exists_ "A" None cache_AB = true
   ↔ ∃ self c', get "A" None None cache_AB = Returns self c')
  ∧ (exists_ "A" None cache_AB = false
     ↔ ∃ c', get "A" None None cache_AB = Raises IndexError c').
Proof. apply (exists_iff_get_returns "A" None None cache_AB), cache_AB_wf. Defined.

(** ** Canonical keys *)

Lemma string_length_app (a b : string) :
  String.length (a +:+ b) = (String.length a + String.length b)%nat.
Proof. induction a as [| ch a IH]; simpl; [done | by rewrite IH]. Qed.

Lemma string_app_inv_tail (a b s : string) : a +:+ s = b +:+ s → a = b.
Proof.
  revert b. induction a as [| ch a IH]; intros [| ch' b] Heq.
  - done.
  - apply (f_equal String.length) in Heq.
    rewrite !string_length_app in Heq. simpl in Heq. lia.
  - apply (f_equal String.length) in Heq.
    rewrite !string_length_app in Heq. simpl in Heq. lia.
  - injection Heq as -> Heq. f_equal. by apply IH.
Qed.

(** X23: under one and the same tag, or under none, different model keys
    have different canonical keys: two models only share a record when their
    keys are equal. *)
Theorem make_cache_key_inj (a b : string) (tag : option SubModelType) :
  a ≠ b → _make_cache_key a tag ≠ _make_cache_key b tag.
Proof.
  intros Hne Heq. apply Hne. destruct tag as [t |]; simpl in Heq; [| done].
  by apply string_app_inv_tail in Heq.
Qed.

Lemma make_cache_key_inj_witness :
  _make_cache_key "sd15" (Some {| value := "unet" |})
  ≠ _make_cache_key "sdxl" (Some {| value := "unet" |}).
Proof. apply (make_cache_key_inj "sd15" "sdxl" (Some {| value := "unet" |})). done. Defined.

(** ** Model objects *)

(** X24: [model_to_device] never disturbs an object that exists.  Whatever
    the record and the device, the call returns or raises, and every model
    object that was on the heap before the call is there unchanged after it:
    the models held by the cache stay as they are, and a failed attempt leaves
    the record loadable. *)
Theorem model_to_device_keeps_objects (cache_entry : CacheRecord)
    (target_device : torch_device) (c : ModelCache) :
  match model_to_device cache_entry target_device c with
  | Returns _ os | Raises _ os => ∀ a o, objects c !! a = Some o → os !! a = Some o
  | Hangs => False
  end.
Proof.
  unfold model_to_device, deepcopy.
  destruct (body cache_entry) as [model | config state_dict cls].
  - destruct (has_to model); [| done].
    destruct (objects c !! addr model) as [o0 |]; simpl; [| done].
    intros a o Ha. pose proof (lookup_lt_Some _ _ _ Ha).
    rewrite list_lookup_alter_ne by lia. by apply lookup_app_l_Some.
  - destruct (_ ≫= _) as [e | o']; [done |].
    intros a o Ha. by apply lookup_app_l_Some.
Qed.

(** ** The lock handle, continued *)

(** X26: what a handle gives back after [put] and [get].  When a model is
    put under a new key and fits, the handle that [get] then returns gives
    either the model or the state dict, never both: for a [torch.nn.Module],
    [get_state_dict] is the state dict the model had at the time of the [put]
    and [model] raises AttributeError; for any other model, [model] is the
    model that was put and [get_state_dict] raises AttributeError. *)
Theorem put_get_handle (k : string) (model : AnyModel) (tag : option SubModelType)
    (stats_name : option string) (c : ModelCache) :
  cache_wf c →
  exists_ k tag c = false →
  over_budget (cache_size c) (nbytes model) (_max_cache_size c * inject_Z GIG)%Q = false →
  ∃ c1 self c2,
    put k model tag c = Returns () c1
    ∧ get k tag stats_name c1 = Returns self c2
    ∧ if is_nn_module model then
        get_state_dict self c2 = Returns (state_dict_of model c) c2
        ∧ locker_model self c2 = Raises AttributeError c2
      else
        locker_model self c2 = Returns model c2
        ∧ get_state_dict self c2 = Raises AttributeError c2.
Proof.
  intros [Hstore Hstack] Habsent Hfits.
  apply bool_decide_eq_false in Habsent. rewrite <- eq_None_not_Some in Habsent.
  set (k' := _make_cache_key k tag) in *.
  set (r := record_for k' model c).
  assert (_cached_models (stored k' r c) !! k' = Some (length (records c))) as Hrid
    by apply lookup_insert_eq.
  assert (records (stored k' r c) !! length (records c) = Some r) as Hr.
  { simpl. rewrite lookup_app_r by done. by rewrite Nat.sub_diag. }
  destruct (get_stored k tag stats_name (stored k' r c) _ r Hrid Hr)
    as (c2 & Hget & Hrecs & _).
  exists (stored k' r c), {| _cache_entry := length (records c) |}, c2.
  split; [by apply put_absent_fits |]. split; [done |].
  unfold get_state_dict, locker_model. simpl. rewrite Hrecs, Hr. simpl.
  unfold r, record_for. by destruct (is_nn_module model).
Qed.

Lemma put_get_handle_witness :
  ∃ c1 self c2,
    put "U" module_U None cache0 = Returns () c1
    ∧ get "U" None None c1 = Returns self c2
    ∧ if is_nn_module module_U then
        get_state_dict self c2 = Returns (state_dict_of module_U cache0) c2
        ∧ locker_model self c2 = Raises AttributeError c2
      else
        locker_model self c2 = Returns module_U c2
        ∧ get_state_dict self c2 = Raises AttributeError c2.
Proof.
  apply (put_get_handle "U" module_U None None cache0);
    [apply cache0_wf | reflexivity | reflexivity].
Defined.

(** ** Blocking *)

Lemma put_stops k model tag c : put k model tag c ≠ Hangs.
Proof.
  unfold put. destruct (decide (is_Some _)); [done |].
  pose proof (make_room_stops (nbytes model) c) as Hroom.
  by destruct (make_room (nbytes model) c).
Qed.

Lemma get_stops k tag stats_name c : get k tag stats_name c ≠ Hangs.
Proof.
  unfold get. destruct (_cached_models c !! _) as [rid |]; [| done]. simpl.
  by destruct (records c !! rid).
Qed.

(** X30: the only call that can block is a reservation without timeout.
    [put], [get], [make_room] and the release of a device always return or
    raise, and [reserve_execution_device] waits for ever before its body
    exactly when it is given no timeout, the thread owns no device and the
    semaphore has no permit. *)
Theorem only_reservation_blocks (timeout : option Z) (t : thread_id) (c : ModelCache) :
  (reserve_enter timeout t c = Hangs
   ↔ timeout = None
     ∧ devices_of t (_execution_devices c) = []
     ∧ sem_value (_free_execution_device c) ≤ 0)
  ∧ (∀ d, reserve_exit d c ≠ Hangs)
  ∧ (∀ sz, make_room sz c ≠ Hangs)
  ∧ (∀ k model tag, put k model tag c ≠ Hangs)
  ∧ (∀ k tag stats_name, get k tag stats_name c ≠ Hangs).
Proof.
  split.
  - unfold reserve_enter, acquire.
    destruct (devices_of t (_execution_devices c)) as [| d ds].
    + destruct (decide (0 < sem_value (_free_execution_device c))) as [Hpermit | Hnone].
      * simpl. destruct (devices_of 0 (_execution_devices c));
          (split; [done | intros (_ & _ & ?); lia]).
      * destruct timeout as [secs |]; simpl.
        -- destruct (devices_of 0 (_execution_devices c));
             (split; [done | by intros (? & _)]).
        -- split; [intros _; repeat split; lia | done].
    + split; [done | by intros (_ & ? & _)].
  - split.
    { intros d. unfold reserve_exit, release. simpl. by destruct (decide _). }
    split; [intros sz; apply make_room_stops |].
    split; [intros; apply put_stops | intros; apply get_stops].
Qed.
